(** * StateSafe: the transition engine, its hook dispatch and the log queue

    A shallow embedding of [src/StateSafe.ts].

    - [TransitionWrapper], [nameConvert]: pure functions on strings.
    - The [FSM] class: one record [Obj] for the instance ([this]).  A
      method is a computation on the instance in a small monad [M]: it
      returns or throws a [TypeError], leaves an instance, and records the
      calls it made out of the engine.
    - An instance is a JS object.  [transition] assigns the shortcut under
      the converted event name, whatever that name is: on the name of a
      field of the engine the function takes the field's place ([Field],
      the [holder] of a [HookTable]); on the name of a method of the engine
      it hides the method, and the engine, which calls its own methods
      through [this], then calls the function ([dispatch]).  [this[name]]
      and [table[eventName]] also find what the object inherits
      ([get_function], [lookup_hooks]).
    - Functions called by the engine (hooks, convention methods, functions
      found in the place of a method) are opaque: a section variable [run]
      gives what a function does to the instance and whether its result is
      truthy.
    - The log queue of the [StateSafe] subclass: a labelled step relation
      whose two labels are the synchronous calls of the facade and the
      completions of the awaited [appendFile].

    Boundaries of the model.
    - Strings are strings of ASCII characters: case conversion is the ASCII
      one, and the order of [sort()] on UTF-16 code units is then the order
      on bytes.
    - A function that the engine calls returns; one that throws, or does
      not return, is not followed.  A function that calls back into the
      engine is covered by [run] as any other function is, but excluded by
      the hypothesis [keeps_engine] of the theorems that carry it.  This
      includes a shortcut that the engine itself calls, in the place of
      one of its methods or as a convention method: the firing it starts
      is not unfolded.
    - The value of a function called in the place of a method of the engine
      is taken to be [undefined], which is the value of a shortcut; a
      subclass that redefines a method of the engine is not modelled.
    - The shortcut is the arrow function of the source: it has no
      [prototype] property, and its [length] is 0 and its [name] empty. *)

From Stdlib Require Import Strings.Ascii.
From stdpp Require Import base strings list gmap sorting.

(** ** Strings as the code uses them *)

Module Js.

(** [c.toLowerCase()] on one ASCII character. *)
Definition lower (c : ascii) : ascii :=
  let n := Ascii.N_of_ascii c in
  if ((65 <=? n) && (n <=? 90))%N then Ascii.ascii_of_N (n + 32) else c.

(** [c.toUpperCase()] on one ASCII character. *)
Definition upper (c : ascii) : ascii :=
  let n := Ascii.N_of_ascii c in
  if ((97 <=? n) && (n <=? 122))%N then Ascii.ascii_of_N (n - 32) else c.

Fixpoint toLowerCase (s : string) : string :=
  match s with
  | EmptyString => EmptyString
  | String c r => String (lower c) (toLowerCase r)
  end.

(** [s.split(sep)] for a one-character separator: never the empty list. *)
Fixpoint split (sep : ascii) (s : string) : list string :=
  match s with
  | EmptyString => [EmptyString]
  | String c r =>
      if Ascii.eqb c sep then EmptyString :: split sep r
      else match split sep r with
           | [] => [String c EmptyString]
           | p :: ps => String c p :: ps
           end
  end.

(** [parts.join(sep)]. *)
Fixpoint join (sep : string) (parts : list string) : string :=
  match parts with
  | [] => ""
  | [p] => p
  | p :: ps => p +:+ sep +:+ join sep ps
  end.

(** [part.charAt(0).toUpperCase() + part.slice(1)]. *)
Definition capitalize (part : string) : string :=
  match part with
  | EmptyString => EmptyString
  | String c r => String (upper c) r
  end.

(** Truthiness of a string: only the empty string is falsy. *)
Definition truthy (s : string) : bool := negb (String.eqb s "").

(** [v || ''] for [v : string | null]. *)
Definition or_empty (v : option string) : string := default "" v.

End Js.

(** ** TransitionWrapper *)

Module TransitionData.
Record t := mk {
  from : string;
  to : string;
  event : string
}.
End TransitionData.
Abbreviation TransitionData := TransitionData.t.

Global Instance TransitionData_eq_dec : EqDecision TransitionData.
Proof. solve_decision. Defined.

Module TransitionWrapper.

Definition reservedWords : list string :=
  [ "break"; "case"; "catch"; "class"; "const"; "continue";
    "debugger"; "default"; "delete"; "do"; "else"; "enum";
    "export"; "extends"; "false"; "final"; "finally"; "for";
    "function"; "if"; "implements"; "import"; "in"; "instanceof";
    "interface"; "let"; "module"; "new"; "null"; "package";
    "private"; "protected"; "public"; "return"; "static"; "super";
    "switch"; "this"; "throw"; "try"; "true"; "type"; "typeof";
    "var"; "void"; "while"; "with"; "yield"; "as"; "any"; "boolean";
    "byte"; "char"; "double"; "int"; "long"; "object"; "short";
    "string"; "undefined"; "declare"; "namespace"; "require";
    "from"; "extends"; "implements"; "interface"; "keyof"; "module";
    "typeof"; "get"; "set" ].

(** [reservedWords.includes(event)] decides the result. *)
Definition validateEvent (event : string) : bool :=
  if existsb (String.eqb event) reservedWords then false else true.

(** The constructor; [data] is the record it stores. *)
Definition new (from to event : string) : TransitionData :=
  if validateEvent event then TransitionData.mk from to event
  else TransitionData.mk "" "" "".

End TransitionWrapper.

(** ** Names *)

(** [nameConvert]: [before_my_event] becomes [beforeMyEvent]. *)
Definition nameConvert (inputString : string) : string :=
match Js.split "_"%char inputString with
| [] => ""
| firstPart :: remainingParts =>
    let convertedParts := map Js.capitalize remainingParts in
    Js.toLowerCase firstPart +:+ Js.join "" convertedParts
end.


(** ** Function values and the record of what the engine called *)

(** A function value on the instance.  [UserFn] is a function the
    application supplies (a method of a subclass, or a closure passed to
    [before], [on] or [after]), identified by a name.  [FireShortcut event]
    is the arrow function [() => this.fire(event)] that [transition]
    assigns.  [Inherited name] is a method that the instance inherits and
    that nothing on the instance hides, found under its name. *)
Inductive Callable :=
| UserFn (name : string)
| FireShortcut (event : string)
| Inherited (name : string).

(** The second argument of [before], [on] and [after]:
    [callbackOrMethod : Function | string]. *)
Inductive HookArg :=
| ByFunction (callback : Callable)
| ByName (method : string).

(** When a call is made: during the guards of a firing, in its on phase,
    in its after phase, in [stateChanged] ([Notice]), or outside any
    firing, in [transition], [before], [on] and the calls of the
    application ([Setup]). *)
Inductive Phase := Before | On | After | Notice | Setup.

(** How the function was found.  [Convention]: under the derived name, by
    [this[name]].  [Registered]: in a hook table.  [Dispatch]: the code
    calls a method of the engine, [this.m(...)], and a function assigned
    to the instance under the name [m] is what is called. *)
Inductive Origin := Convention | Registered | Dispatch.

Record Invocation := mkInvocation {
phase : Phase;
origin : Origin;
callee : Callable;
truthy : bool
}.

Global Instance Callable_eq_dec : EqDecision Callable.
Proof. solve_decision. Defined.
Global Instance Phase_eq_dec : EqDecision Phase.
Proof. solve_decision. Defined.
Global Instance Origin_eq_dec : EqDecision Origin.
Proof. solve_decision. Defined.
Global Instance Invocation_eq_dec : EqDecision Invocation.
Proof. solve_decision. Defined.

(** ** Properties of the instance *)

(** How a call ends: it returns, or it throws the [TypeError] of a method
    call on a value that has no such method, or of an assignment that is
    not allowed. *)
Inductive Completion (A : Type) :=
| Normal (a : A)
| TypeError.
Arguments Normal {A} a.
Arguments TypeError {A}.

(** The value of [transitions], [uniqueStates] or [uniqueEvents]: what the
    class put there, or the function that an assignment
    [this[methodName] = () => this.fire(event)] of [transition] put in its
    place. *)
Inductive Field (A : Type) :=
| Data (a : A)
| Fn (f : Callable).
Arguments Data {A} a.
Arguments Fn {A} f.

Definition fn_of {A} (v : Field A) : option Callable :=
  match v with
  | Data _ => None
  | Fn f => Some f
  end.

(** The property names that every object inherits from [Object.prototype]. *)
Definition object_prototype : list string :=
  [ "constructor"; "hasOwnProperty"; "isPrototypeOf"; "propertyIsEnumerable";
    "toLocaleString"; "toString"; "valueOf"; "__defineGetter__";
    "__defineSetter__"; "__lookupGetter__"; "__lookupSetter__"; "__proto__" ].

(** The further names that a function inherits from [Function.prototype]
    and whose values are functions. *)
Definition function_prototype : list string := [ "apply"; "bind"; "call" ].

(** The methods of the two classes. *)
Definition fsm_prototype : list string :=
  [ "transition"; "state"; "states"; "events"; "fire"; "stateChanged";
    "transitionName"; "fromState"; "toState"; "nextState"; "nameConvert";
    "after"; "on"; "before"; "invokeOnHooks"; "invokeAfterHooks" ].

Definition statesafe_prototype : list string :=
  [ "logTo"; "infoMsg"; "safeMsg"; "criticalMsg"; "formatMessage";
    "formatHeader"; "formatTag"; "coloredMsg"; "now"; "log";
    "processLogQueue" ].

(** The names under which an instance finds a function that it inherits:
    the methods of [FSM] and [StateSafe] and the functions of
    [Object.prototype] ([__proto__] is an object). *)
Definition inherited_functions : list string :=
  fsm_prototype ++ statesafe_prototype
  ++ [ "constructor"; "hasOwnProperty"; "isPrototypeOf";
       "propertyIsEnumerable"; "toLocaleString"; "toString"; "valueOf";
       "__defineGetter__"; "__defineSetter__"; "__lookupGetter__";
       "__lookupSetter__" ].

(** The own properties of an instance that hold data: a method of a
    subclass with one of these names is hidden by the property. *)
Definition data_properties : list string :=
  [ "_state"; "_transitionName"; "_fromState"; "_toState"; "_nextState";
    "transitions"; "uniqueStates"; "uniqueEvents"; "onHooks"; "afterHooks";
    "beforeHooks"; "authorName"; "appName"; "majorVersion"; "minorVersion";
    "patchVersion"; "logFileLocation"; "logQueue"; "writing"; "message";
    "tag"; "useColor" ].

(** A hook table, [{ [eventName: string]: Function[] }].  [holder] is
    [None] for the object [{}] of the class, and the function that
    [transition] assigned in its place otherwise; [own] are the entries
    that [before], [on] and [after] made on it. *)
Record HookTable := mkTable {
  holder : option Callable;
  own : gmap string (list Callable)
}.

(** What [table[eventName]] evaluates to.  [Undefined]: no such property.
    [Falsy]: the [length] (0) or the [name] (the empty string) of a function,
    which cannot be assigned.  [Foreign]: an inherited property, which is
    truthy and no array.  [Poisoned]: [caller] or [arguments] on a
    function: reading it throws. *)
Inductive Found :=
| Hooks (hooks : list Callable)
| Undefined
| Falsy
| Foreign
| Poisoned.

Definition lookup_hooks (table : HookTable) (eventName : string) : Found :=
  match own table !! eventName with
  | Some hooks => Hooks hooks
  | None =>
      match holder table with
      | None =>
          if bool_decide (eventName ∈ object_prototype) then Foreign
          else Undefined
      | Some _ =>
          if bool_decide (eventName ∈ ["caller"; "arguments"]) then Poisoned
          else if bool_decide (eventName ∈ ["length"; "name"]) then Falsy
          else if bool_decide (eventName ∈ function_prototype ++ object_prototype)
               then Foreign
          else Undefined
      end
  end.

(** [if (!table[eventName]) table[eventName] = []]. *)
Definition ensure_list (eventName : string) (table : HookTable)
  : Completion HookTable :=
  match lookup_hooks table eventName with
  | Hooks _ | Foreign => Normal table
  | Undefined =>
      Normal (mkTable (holder table) (<[eventName := []]> (own table)))
  | Falsy | Poisoned => TypeError
  end.

(** [table[eventName].push(f)]. *)
Definition push_hook (eventName : string) (f : Callable) (table : HookTable)
  : Completion HookTable :=
  match lookup_hooks table eventName with
  | Hooks hooks =>
      Normal (mkTable (holder table)
                (<[eventName := hooks ++ [f]]> (own table)))
  | _ => TypeError
  end.

(** [undefined] as a property name. *)
Definition key (name : option string) : string := default "undefined" name.

(** [onMethod === callbackOrMethod]. *)
Definition is_name (n : option string) (callbackOrMethod : HookArg) : bool :=
  match n, callbackOrMethod with
  | Some n, ByName m => String.eqb n m
  | _, _ => false
  end.

(** ** The FSM class *)

Section FSM.

(** The application's own state: what its functions read and write
    besides the engine. *)
Context {U : Type}.

Record Obj := mkObj {
  _state : option string;
  _transitionName : option string;
  _fromState : option string;
  _toState : option string;
  _nextState : option string;
  transitions : Field (list TransitionData);
  uniqueStates : Field (gset string);
  uniqueEvents : Field (gset string);
  onHooks : HookTable;
  afterHooks : HookTable;
  beforeHooks : HookTable;
  (** the functions assigned to other names of the instance, and the
      methods of the subclass *)
  members : gmap string Callable;
  app : U
}.

Definition set_state (v : option string) (this : Obj) : Obj :=
  {| _state := v; _transitionName := _transitionName this;
     _fromState := _fromState this; _toState := _toState this;
     _nextState := _nextState this; transitions := transitions this;
     uniqueStates := uniqueStates this; uniqueEvents := uniqueEvents this;
     onHooks := onHooks this; afterHooks := afterHooks this;
     beforeHooks := beforeHooks this; members := members this;
     app := app this |}.

Definition set_transitionName (v : option string) (this : Obj) : Obj :=
  {| _state := _state this; _transitionName := v;
     _fromState := _fromState this; _toState := _toState this;
     _nextState := _nextState this; transitions := transitions this;
     uniqueStates := uniqueStates this; uniqueEvents := uniqueEvents this;
     onHooks := onHooks this; afterHooks := afterHooks this;
     beforeHooks := beforeHooks this; members := members this;
     app := app this |}.

Definition set_fromState (v : option string) (this : Obj) : Obj :=
  {| _state := _state this; _transitionName := _transitionName this;
     _fromState := v; _toState := _toState this;
     _nextState := _nextState this; transitions := transitions this;
     uniqueStates := uniqueStates this; uniqueEvents := uniqueEvents this;
     onHooks := onHooks this; afterHooks := afterHooks this;
     beforeHooks := beforeHooks this; members := members this;
     app := app this |}.

Definition set_toState (v : option string) (this : Obj) : Obj :=
  {| _state := _state this; _transitionName := _transitionName this;
     _fromState := _fromState this; _toState := v;
     _nextState := _nextState this; transitions := transitions this;
     uniqueStates := uniqueStates this; uniqueEvents := uniqueEvents this;
     onHooks := onHooks this; afterHooks := afterHooks this;
     beforeHooks := beforeHooks this; members := members this;
     app := app this |}.

Definition set_nextState (v : option string) (this : Obj) : Obj :=
  {| _state := _state this; _transitionName := _transitionName this;
     _fromState := _fromState this; _toState := _toState this;
     _nextState := v; transitions := transitions this;
     uniqueStates := uniqueStates this; uniqueEvents := uniqueEvents this;
     onHooks := onHooks this; afterHooks := afterHooks this;
     beforeHooks := beforeHooks this; members := members this;
     app := app this |}.

Definition set_transitions (v : Field (list TransitionData)) (this : Obj)
  : Obj :=
  {| _state := _state this; _transitionName := _transitionName this;
     _fromState := _fromState this; _toState := _toState this;
     _nextState := _nextState this; transitions := v;
     uniqueStates := uniqueStates this; uniqueEvents := uniqueEvents this;
     onHooks := onHooks this; afterHooks := afterHooks this;
     beforeHooks := beforeHooks this; members := members this;
     app := app this |}.

Definition set_uniqueStates (v : Field (gset string)) (this : Obj) : Obj :=
  {| _state := _state this; _transitionName := _transitionName this;
     _fromState := _fromState this; _toState := _toState this;
     _nextState := _nextState this; transitions := transitions this;
     uniqueStates := v; uniqueEvents := uniqueEvents this;
     onHooks := onHooks this; afterHooks := afterHooks this;
     beforeHooks := beforeHooks this; members := members this;
     app := app this |}.

Definition set_uniqueEvents (v : Field (gset string)) (this : Obj) : Obj :=
  {| _state := _state this; _transitionName := _transitionName this;
     _fromState := _fromState this; _toState := _toState this;
     _nextState := _nextState this; transitions := transitions this;
     uniqueStates := uniqueStates this; uniqueEvents := v;
     onHooks := onHooks this; afterHooks := afterHooks this;
     beforeHooks := beforeHooks this; members := members this;
     app := app this |}.

Definition set_onHooks (v : HookTable) (this : Obj) : Obj :=
  {| _state := _state this; _transitionName := _transitionName this;
     _fromState := _fromState this; _toState := _toState this;
     _nextState := _nextState this; transitions := transitions this;
     uniqueStates := uniqueStates this; uniqueEvents := uniqueEvents this;
     onHooks := v; afterHooks := afterHooks this;
     beforeHooks := beforeHooks this; members := members this;
     app := app this |}.

Definition set_afterHooks (v : HookTable) (this : Obj) : Obj :=
  {| _state := _state this; _transitionName := _transitionName this;
     _fromState := _fromState this; _toState := _toState this;
     _nextState := _nextState this; transitions := transitions this;
     uniqueStates := uniqueStates this; uniqueEvents := uniqueEvents this;
     onHooks := onHooks this; afterHooks := v;
     beforeHooks := beforeHooks this; members := members this;
     app := app this |}.

Definition set_beforeHooks (v : HookTable) (this : Obj) : Obj :=
  {| _state := _state this; _transitionName := _transitionName this;
     _fromState := _fromState this; _toState := _toState this;
     _nextState := _nextState this; transitions := transitions this;
     uniqueStates := uniqueStates this; uniqueEvents := uniqueEvents this;
     onHooks := onHooks this; afterHooks := afterHooks this;
     beforeHooks := v; members := members this; app := app this |}.

Definition set_members (v : gmap string Callable) (this : Obj) : Obj :=
  {| _state := _state this; _transitionName := _transitionName this;
     _fromState := _fromState this; _toState := _toState this;
     _nextState := _nextState this; transitions := transitions this;
     uniqueStates := uniqueStates this; uniqueEvents := uniqueEvents this;
     onHooks := onHooks this; afterHooks := afterHooks this;
     beforeHooks := beforeHooks this; members := v; app := app this |}.

Definition set_app (v : U) (this : Obj) : Obj :=
  {| _state := _state this; _transitionName := _transitionName this;
     _fromState := _fromState this; _toState := _toState this;
     _nextState := _nextState this; transitions := transitions this;
     uniqueStates := uniqueStates this; uniqueEvents := uniqueEvents this;
     onHooks := onHooks this; afterHooks := afterHooks this;
     beforeHooks := beforeHooks this; members := members this; app := v |}.

(** The class field initialisers.  [methods] are the methods of the
    subclass.  The own data properties hide those of the same name; a
    subclass that redefines a method of the engine is not modelled, and
    such an entry of [methods] is left out: the functions that an instance
    holds under the name of a method of the engine are the shortcuts that
    [transition] assigned. *)
Definition new (methods : gmap string Callable) (app0 : U) : Obj :=
  {| _state := None; _transitionName := Some ""; _fromState := Some "";
     _toState := Some ""; _nextState := Some "";
     transitions := Data []; uniqueStates := Data ∅; uniqueEvents := Data ∅;
     onHooks := mkTable None ∅; afterHooks := mkTable None ∅;
     beforeHooks := mkTable None ∅;
     members :=
       filter (λ kv, kv.1 ∉ data_properties ++ fsm_prototype) methods;
     app := app0 |}.

(** [typeof this[name] === 'function'], and the function. *)
Definition get_function (name : string) (this : Obj) : option Callable :=
  if String.eqb name "transitions" then fn_of (transitions this)
  else if String.eqb name "uniqueStates" then fn_of (uniqueStates this)
  else if String.eqb name "uniqueEvents" then fn_of (uniqueEvents this)
  else if String.eqb name "onHooks" then holder (onHooks this)
  else if String.eqb name "afterHooks" then holder (afterHooks this)
  else if String.eqb name "beforeHooks" then holder (beforeHooks this)
  else
    match members this !! name with
    | Some f => Some f
    | None =>
        if bool_decide (name ∈ inherited_functions)
        then Some (Inherited name) else None
    end.

(** [this[name] = f].  Assigned to the name of a field of the engine, the
    function takes the place of the array, the set or the table. *)
Definition assign (name : string) (f : Callable) (this : Obj) : Obj :=
  if String.eqb name "transitions" then set_transitions (Fn f) this
  else if String.eqb name "uniqueStates" then set_uniqueStates (Fn f) this
  else if String.eqb name "uniqueEvents" then set_uniqueEvents (Fn f) this
  else if String.eqb name "onHooks" then set_onHooks (mkTable (Some f) ∅) this
  else if String.eqb name "afterHooks"
       then set_afterHooks (mkTable (Some f) ∅) this
  else if String.eqb name "beforeHooks"
       then set_beforeHooks (mkTable (Some f) ∅) this
  else set_members (<[name := f]> (members this)) this.

(** *** Calling out of the engine *)

(** What a function does when the engine calls it with [this] bound to the
    instance: the instance afterwards, and whether the value it returned is
    truthy.  A function that throws is not followed.  Nothing else is
    assumed here; the theorems that need the functions to leave the engine
    alone say so ([keeps_engine]). *)
Variable run : Callable → list string → Obj → bool * Obj.

(** [process.env.STATE] or [process.env.state], lower-cased, is ['show']. *)
Variable STATE_show : bool.

(** A computation on the instance: how it ends, the instance then, and
    the calls it made. *)
Definition M (A : Type) : Type := Obj → Completion A * Obj * list Invocation.

Definition ret {A} (a : A) : M A := λ this, (Normal a, this, []).

Definition throw {A} : M A := λ this, (TypeError, this, []).

Definition bind {A B} (m : M A) (k : A → M B) : M B :=
  λ this,
    let '(r, this1, calls1) := m this in
    match r with
    | Normal a =>
        let '(b, this2, calls2) := k a this1 in
        (b, this2, calls1 ++ calls2)
    | TypeError => (TypeError, this1, calls1)
    end.

Definition get : M Obj := λ this, (Normal this, this, []).

Definition modify (f : Obj → Obj) : M unit := λ this, (Normal tt, f this, []).

Definition lift {A} (c : Completion A) : M A := λ this, (c, this, []).

(** The instance after a computation, however it ended. *)
Definition exec {A} (m : M A) (this : Obj) : Obj := (m this).1.2.

Definition call (p : Phase) (g : Origin) (f : Callable) (args : list string)
  : M bool :=
  λ this,
    let '(r, this') := run f args this in
    (Normal r, this', [mkInvocation p g f r]).

Local Notation "x ← m ; k" := (bind m (λ x, k))
  (at level 20, m at level 100, k at level 200, only parsing).
Local Notation "m ;; k" := (bind m (λ _, k))
  (at level 100, k at level 200, only parsing, right associativity).

(** A method of an array or of a set called on the field: on the function
    that took the field's place there is no such method. *)
Definition read {A} (field : Obj → Field A) : M A :=
  this ← get;
  match field this with
  | Data a => ret a
  | Fn _ => throw
  end.

(** [this.m(args)] for a method [m] of the engine: the method [body], or
    the function assigned to the instance under the name [m]; the value of
    that call is taken to be [undefined], as the value of a shortcut is. *)
Definition dispatch {A} (p : Phase) (m : string) (args : list string)
    (undefined : A) (body : M A) : M A :=
  this ← get;
  match members this !! m with
  | Some f => call p Dispatch f args ;; ret undefined
  | None => body
  end.

(** [this.nameConvert(inputString)]. *)
Definition this_nameConvert (p : Phase) (inputString : string)
  : M (option string) :=
  dispatch p "nameConvert" [inputString] None
    (ret (Some (nameConvert inputString))).

(** *** transition, state, states, events *)

Definition transition (event from to : string) : M unit :=
  if TransitionWrapper.validateEvent event then
    registered ← read transitions;
    if negb (existsb (λ transition,
                 String.eqb (TransitionData.from transition) from
                 && String.eqb (TransitionData.to transition) to)
               registered) then
      if negb (existsb (λ transition,
                   String.eqb (TransitionData.event transition) event)
                 registered) then
        let transition := TransitionWrapper.new from to event in
        modify (set_transitions (Data (registered ++ [transition]))) ;;
        states ← read uniqueStates;
        modify (set_uniqueStates (Data ({[from]} ∪ states))) ;;
        states ← read uniqueStates;
        modify (set_uniqueStates (Data ({[to]} ∪ states))) ;;
        events ← read uniqueEvents;
        modify (set_uniqueEvents (Data ({[event]} ∪ events))) ;;
        methodName ← this_nameConvert Setup event;
        modify (assign (key methodName) (FireShortcut event))
      else ret tt
    else ret tt
  else ret tt.

(** [state(newState?)]: how the call ends, with its result, and the
    instance afterwards.  It calls nothing. *)
Definition state (newState : option string) (this : Obj)
  : Completion (option string) * Obj :=
  match newState with
  | Some s =>
      if Js.truthy s then
        match _state this with
        | None =>
            match uniqueStates this with
            | Data states =>
                (Normal None,
                 if bool_decide (s ∈ states) then set_state (Some s) this
                 else this)
            | Fn _ => (TypeError, this)
            end
        | Some _ => (Normal None, this)
        end
      else (Normal (_state this), this)
  | None => (Normal (_state this), this)
  end.

(** [Array.from(this.uniqueStates).sort()]; a function is array-like of
    length 0. *)
Definition states (this : Obj) : list string :=
  match uniqueStates this with
  | Data states => merge_sort String.le (elements states)
  | Fn _ => []
  end.

Definition events (this : Obj) : list string :=
  match uniqueEvents this with
  | Data events => merge_sort String.le (elements events)
  | Fn _ => []
  end.

Definition transitionName (this : Obj) : option string := _transitionName this.
Definition fromState (this : Obj) : option string := _fromState this.
Definition toState (this : Obj) : option string := _toState this.
Definition nextState (this : Obj) : option string := _nextState this.

(** *** before, on, after *)

(** The function that a registration pushes, if any. *)
Definition resolve (callbackOrMethod : HookArg) (this : Obj)
  : option Callable :=
  match callbackOrMethod with
  | ByFunction callback => Some callback
  | ByName method => get_function method this
  end.

(** The part that [after], [on] and [before] share, on the table read by
    [table] and written by [set_table]. *)
Definition register (table : Obj → HookTable)
    (set_table : HookTable → Obj → Obj)
    (eventName : string) (callbackOrMethod : HookArg) : M unit :=
  this ← get;
  hooks ← lift (ensure_list eventName (table this));
  modify (set_table hooks) ;;
  this ← get;
  match resolve callbackOrMethod this with
  | Some method =>
      hooks ← lift (push_hook eventName method (table this));
      modify (set_table hooks)
  | None => ret tt
  end.

Definition after (eventName : string) (callbackOrMethod : HookArg) : M unit :=
  register afterHooks set_afterHooks eventName callbackOrMethod.

Definition on (eventName : string) (callbackOrMethod : HookArg) : M unit :=
  onMethod ← this_nameConvert Setup ("on_" +:+ eventName);
  if is_name onMethod callbackOrMethod then ret tt
  else register onHooks set_onHooks eventName callbackOrMethod.

Definition before (eventName : string) (callbackOrMethod : HookArg)
  : M unit :=
  beforeMethod ← this_nameConvert Setup ("before_" +:+ eventName);
  if is_name beforeMethod callbackOrMethod then ret tt
  else register beforeHooks set_beforeHooks eventName callbackOrMethod.

(** *** The hooks of a firing *)

(** [table[eventName] || []]: the array, or [None] for a value that is
    not one. *)
Definition hooks_or_empty (table : HookTable) (eventName : string)
  : M (option (list Callable)) :=
  match lookup_hooks table eventName with
  | Hooks hooks => ret (Some hooks)
  | Undefined | Falsy => ret (Some [])
  | Foreign => ret None
  | Poisoned => throw
  end.

(** [hooks.every(hook => hook())]: stops at the first falsy result. *)
Fixpoint every (hooks : list Callable) : M bool :=
  match hooks with
  | [] => ret true
  | hook :: rest =>
      r ← call Before Registered hook [];
      if r then every rest else ret false
  end.

(** [hooks.forEach(hook => hook())]. *)
Fixpoint forEach (p : Phase) (hooks : list Callable) : M unit :=
  match hooks with
  | [] => ret tt
  | hook :: rest => call p Registered hook [] ;; forEach p rest
  end.

Definition invokeOnHooks (eventName : string) : M unit :=
  this ← get;
  hooks ← hooks_or_empty (onHooks this) eventName;
  match hooks with
  | Some hooks => forEach On hooks
  | None => throw
  end.

Definition invokeAfterHooks (eventName : string) : M unit :=
  this ← get;
  hooks ← hooks_or_empty (afterHooks this) eventName;
  match hooks with
  | Some hooks => forEach After hooks
  | None => throw
  end.

Definition stateChanged (func : string) : M unit :=
  if STATE_show then
    let func := if Js.truthy func then " in " +:+ func else func in
    name ← dispatch Notice "transitionName" [] None
              (this ← get; ret (transitionName this));
    fromState ← dispatch Notice "fromState" [] None
                   (this ← get; ret (fromState this));
    toState ← dispatch Notice "toState" [] None
                 (this ← get; ret (toState this));
    this ← get;
    match get_function "infoMsg" this with
    | Some infoMsgHook =>
        call Notice Convention infoMsgHook
          ["Transition (" +:+ Js.or_empty name +:+ func +:+ ") : ["
             +:+ Js.or_empty fromState +:+ "] -> [" +:+ Js.or_empty toState
             +:+ "]"; "STATE CHANGED"] ;;
        ret tt
    | None => ret tt
    end
  else ret tt.

(** [this[method]] called when it is a function. *)
Definition call_convention (p : Phase) (method : option string) : M unit :=
  this ← get;
  match get_function (key method) this with
  | Some hook => call p Convention hook [] ;; ret tt
  | None => ret tt
  end.

(** *** fire *)

(** [registered.find(t => t.data.event === eventName
                          && t.data.from === current)]. *)
Definition found_in (eventName : string) (current : option string)
    (registered : list TransitionData) : option TransitionData :=
  find (λ t, String.eqb (TransitionData.event t) eventName
             && bool_decide (Some (TransitionData.from t) = current))
       registered.

(** The first half of the body of [fire], up to the test on
    [canProceed1 && canProceed2 && transition]: the context is set and the
    guards are run.  The result is [(canProceed1, canProceed2)]. *)
Definition fire_guards (eventName : string)
    (transition : option TransitionData) : M (bool * bool) :=
  beforeMethod ← this_nameConvert Before ("before_" +:+ eventName);
  this ← get;
  beforeHooks ← hooks_or_empty (beforeHooks this) eventName;
  let beforeHook2 := get_function (key beforeMethod) this in
  modify (set_transitionName (Some eventName)) ;;
  modify (λ this, set_fromState (_state this) this) ;;
  match transition with
  | Some t => modify (set_toState (Some (TransitionData.to t)))
  | None => ret tt
  end ;;
  modify (set_nextState (Some "")) ;;
  canProceed2 ← match beforeHook2 with
                | Some hook => call Before Convention hook []
                | None => ret true
                end;
  canProceed1 ← match beforeHooks with
                | Some hooks => every hooks
                | None => throw
                end;
  ret (canProceed1, canProceed2).

(** The body of [if (canProceed1 && canProceed2 && transition)]. *)
Definition fire_proceed (eventName : string) (transition : TransitionData)
  : M unit :=
  modify (set_nextState (Some (TransitionData.to transition))) ;;
  onMethod ← this_nameConvert On ("on_" +:+ eventName);
  call_convention On onMethod ;;
  dispatch On "invokeOnHooks" [eventName] tt (invokeOnHooks eventName) ;;
  modify (set_state (Some (TransitionData.to transition))) ;;
  modify (set_nextState (Some "")) ;;
  dispatch Notice "stateChanged" [] tt (stateChanged "") ;;
  afterMethod ← this_nameConvert After ("after_" +:+ eventName);
  call_convention After afterMethod ;;
  dispatch After "invokeAfterHooks" [eventName] tt
    (invokeAfterHooks eventName) ;;
  modify (set_transitionName (Some "")) ;;
  modify (set_fromState (Some "")) ;;
  modify (set_toState (Some "")) ;;
  modify (set_nextState (Some "")).

Definition fire (eventName : string) : M unit :=
  events ← read uniqueEvents;
  if bool_decide (eventName ∈ events) then
    registered ← read transitions;
    this ← get;
    let transition := found_in eventName (_state this) registered in
    c ← fire_guards eventName transition;
    let '(canProceed1, canProceed2) := c in
    match transition with
    | Some t =>
        if canProceed1 && canProceed2 then fire_proceed eventName t
        else ret tt
    | None => ret tt
    end
  else ret tt.

(** *** Sequences of calls on one instance *)

(** The calls an application makes on an instance.  [OpCall method] is
    [this[method]()]. *)
Inductive Op :=
| OpTransition (event from to : string)
| OpState (newState : option string)
| OpBefore (eventName : string) (callbackOrMethod : HookArg)
| OpOn (eventName : string) (callbackOrMethod : HookArg)
| OpAfter (eventName : string) (callbackOrMethod : HookArg)
| OpFire (eventName : string)
| OpCall (method : string).

(** The strings among the arguments of a registration. *)
Definition hook_args (eventName : string) (callbackOrMethod : HookArg)
  : list string :=
  match callbackOrMethod with
  | ByFunction _ => [eventName]
  | ByName method => [eventName; method]
  end.

(** One call of the application, as a method call on the instance: where
    a function was assigned under the method's name, that function is
    called.  A shortcut called by the application fires its event. *)
Definition perform (op : Op) : M unit :=
  match op with
  | OpTransition event from to =>
      dispatch Setup "transition" [event; from; to] tt
        (transition event from to)
  | OpState newState =>
      dispatch Setup "state" (option_list newState) tt
        (λ this, let '(r, this') := state newState this in
                 (match r with
                  | Normal _ => Normal tt
                  | TypeError => TypeError
                  end, this', []))
  | OpBefore eventName f =>
      dispatch Setup "before" (hook_args eventName f) tt (before eventName f)
  | OpOn eventName f =>
      dispatch Setup "on" (hook_args eventName f) tt (on eventName f)
  | OpAfter eventName f =>
      dispatch Setup "after" (hook_args eventName f) tt (after eventName f)
  | OpFire eventName =>
      dispatch Setup "fire" [eventName] tt (fire eventName)
  | OpCall method =>
      this ← get;
      match get_function method this with
      | Some (FireShortcut eventName) =>
          dispatch Setup "fire" [eventName] tt (fire eventName)
      | Some f => call Setup Dispatch f [] ;; ret tt
      | None => throw
      end
  end.

(** The instance after the call, whether it returned or threw. *)
Definition apply_op (op : Op) (this : Obj) : Obj := exec (perform op) this.

Definition apply_ops (ops : list Op) (this : Obj) : Obj :=
  foldl (λ this op, apply_op op this) this ops.

(** *** What the theorems ask of the functions *)

(** A function leaves the engine's fields as they are: it does not call
    the engine.  It may change the application's state. *)
Definition keeps_engine : Prop :=
  ∀ f args this,
    (run f args this).2 = set_app (app (run f args this).2) this.


(** The four context fields are the empty string. *)
Definition context_cleared (this : Obj) : Prop :=
  transitionName this = Some "" ∧ fromState this = Some ""
  ∧ toState this = Some "" ∧ nextState this = Some "".

End FSM.

Arguments Obj : clear implicits.

(** ** The log queue of the StateSafe subclass *)

Module StateSafe.

(** The fields of the class that logging uses, and next to them what the
    instance acts on: the two console streams, the files, and the
    [appendFile] call the drain is suspended on ([awaited]: path and data;
    [None] when no call is outstanding). *)
Record Instance := mkInstance {
  authorName : string;
  appName : string;
  majorVersion : string;
  minorVersion : string;
  patchVersion : string;
  logFileLocation : string;
  logQueue : list string;
  writing : bool;
  (** [this.message] *)
  message : string;
  tag : string;
  useColor : bool;
  console_log : list string;
  console_error : list string;
  files : gmap string string;
  awaited : option (string * string)
}.

Definition set_logFileLocation (v : string) (this : Instance) : Instance :=
  {| authorName := authorName this; appName := appName this;
     majorVersion := majorVersion this; minorVersion := minorVersion this;
     patchVersion := patchVersion this; logFileLocation := v;
     logQueue := logQueue this; writing := writing this;
     message := message this; tag := tag this; useColor := useColor this;
     console_log := console_log this; console_error := console_error this;
     files := files this; awaited := awaited this |}.

Definition set_logQueue (v : list string) (this : Instance) : Instance :=
  {| authorName := authorName this; appName := appName this;
     majorVersion := majorVersion this; minorVersion := minorVersion this;
     patchVersion := patchVersion this;
     logFileLocation := logFileLocation this; logQueue := v;
     writing := writing this; message := message this; tag := tag this;
     useColor := useColor this; console_log := console_log this;
     console_error := console_error this; files := files this;
     awaited := awaited this |}.

Definition set_writing (v : bool) (this : Instance) : Instance :=
  {| authorName := authorName this; appName := appName this;
     majorVersion := majorVersion this; minorVersion := minorVersion this;
     patchVersion := patchVersion this;
     logFileLocation := logFileLocation this; logQueue := logQueue this;
     writing := v; message := message this; tag := tag this;
     useColor := useColor this; console_log := console_log this;
     console_error := console_error this; files := files this;
     awaited := awaited this |}.

Definition set_message (v : string) (this : Instance) : Instance :=
  {| authorName := authorName this; appName := appName this;
     majorVersion := majorVersion this; minorVersion := minorVersion this;
     patchVersion := patchVersion this;
     logFileLocation := logFileLocation this; logQueue := logQueue this;
     writing := writing this; message := v; tag := tag this;
     useColor := useColor this; console_log := console_log this;
     console_error := console_error this; files := files this;
     awaited := awaited this |}.

Definition set_tag (v : string) (this : Instance) : Instance :=
  {| authorName := authorName this; appName := appName this;
     majorVersion := majorVersion this; minorVersion := minorVersion this;
     patchVersion := patchVersion this;
     logFileLocation := logFileLocation this; logQueue := logQueue this;
     writing := writing this; message := message this; tag := v;
     useColor := useColor this; console_log := console_log this;
     console_error := console_error this; files := files this;
     awaited := awaited this |}.

Definition set_useColor (v : bool) (this : Instance) : Instance :=
  {| authorName := authorName this; appName := appName this;
     majorVersion := majorVersion this; minorVersion := minorVersion this;
     patchVersion := patchVersion this;
     logFileLocation := logFileLocation this; logQueue := logQueue this;
     writing := writing this; message := message this; tag := tag this;
     useColor := v; console_log := console_log this;
     console_error := console_error this; files := files this;
     awaited := awaited this |}.

Definition set_console_log (v : list string) (this : Instance) : Instance :=
  {| authorName := authorName this; appName := appName this;
     majorVersion := majorVersion this; minorVersion := minorVersion this;
     patchVersion := patchVersion this;
     logFileLocation := logFileLocation this; logQueue := logQueue this;
     writing := writing this; message := message this; tag := tag this;
     useColor := useColor this; console_log := v;
     console_error := console_error this; files := files this;
     awaited := awaited this |}.

Definition set_console_error (v : list string) (this : Instance) : Instance :=
  {| authorName := authorName this; appName := appName this;
     majorVersion := majorVersion this; minorVersion := minorVersion this;
     patchVersion := patchVersion this;
     logFileLocation := logFileLocation this; logQueue := logQueue this;
     writing := writing this; message := message this; tag := tag this;
     useColor := useColor this; console_log := console_log this;
     console_error := v; files := files this; awaited := awaited this |}.

Definition set_files (v : gmap string string) (this : Instance) : Instance :=
  {| authorName := authorName this; appName := appName this;
     majorVersion := majorVersion this; minorVersion := minorVersion this;
     patchVersion := patchVersion this;
     logFileLocation := logFileLocation this; logQueue := logQueue this;
     writing := writing this; message := message this; tag := tag this;
     useColor := useColor this; console_log := console_log this;
     console_error := console_error this; files := v;
     awaited := awaited this |}.

Definition set_awaited (v : option (string * string)) (this : Instance) : Instance :=
  {| authorName := authorName this; appName := appName this;
     majorVersion := majorVersion this; minorVersion := minorVersion this;
     patchVersion := patchVersion this;
     logFileLocation := logFileLocation this; logQueue := logQueue this;
     writing := writing this; message := message this; tag := tag this;
     useColor := useColor this; console_log := console_log this;
     console_error := console_error this; files := files this; awaited := v |}.

Definition ESC : string := String (Ascii.ascii_of_nat 27) "".
Definition LF : string := String (Ascii.ascii_of_nat 10) "".

Definition BOLD : string := ESC +:+ "[1m".
Definition DARK_AMBER : string := ESC +:+ "[33m".
Definition DARK_BLUE : string := ESC +:+ "[34m".
Definition DARK_TURQUOISE : string := ESC +:+ "[36m".
Definition END : string := ESC +:+ "[0m".
Definition FLASHING : string := ESC +:+ "[5m".
Definition ITALICS : string := ESC +:+ "[3m".
Definition LIGHT_RED : string := ESC +:+ "[91m".
Definition LIGHT_AMBER : string := ESC +:+ "[93m".
Definition LIGHT_BLUE : string := ESC +:+ "[94m".
Definition LIGHT_GREEN : string := ESC +:+ "[92m".
Definition LIGHT_TURQUOISE : string := ESC +:+ "[96m".

(** The constructor. *)
Definition new (author appName majorVersion minorVersion patchVersion : string)
    (fs : gmap string string) : Instance :=
  {| authorName := author; appName := appName; majorVersion := majorVersion;
     minorVersion := minorVersion; patchVersion := patchVersion;
     logFileLocation := ""; logQueue := []; writing := false;
     message := ""; tag := ""; useColor := true;
     console_log := []; console_error := []; files := fs; awaited := None |}.

Definition logTo (filePath : string) (this : Instance) : Instance :=
  set_logFileLocation filePath (set_useColor false this).

(** [now(color)]; [timeMsg] is [new Date().toISOString()]. *)
Definition now (timeMsg color : string) (this : Instance) : string :=
  if useColor this then color +:+ BOLD +:+ ITALICS +:+ timeMsg +:+ END
  else timeMsg.

Definition version_text (this : Instance) : string :=
  appName this +:+ "(v" +:+ majorVersion this +:+ "." +:+ minorVersion this
    +:+ "." +:+ patchVersion this +:+ ")".

Definition formatHeader (color : string) (this : Instance) : string :=
  if useColor this then color +:+ BOLD +:+ version_text this +:+ END
  else version_text this.

Definition formatTag (color : string) (this : Instance) : string :=
  if useColor this && Js.truthy (tag this)
  then " [" +:+ color +:+ tag this +:+ END +:+ "]: "
  else "[" +:+ tag this +:+ "]: ".

Definition coloredMsg (color : string) (this : Instance) : string :=
  Js.join LF
    (map (λ line, if useColor this then "  " +:+ color +:+ line +:+ END
                  else "  " +:+ line)
         (Js.split (Ascii.ascii_of_nat 10) (message this))).

Definition formatMessage (timeMsg headerColor msgColor colorTag : string)
    (this : Instance) : string :=
  let timestamp := now timeMsg headerColor this in
  let header := formatHeader headerColor this in
  let tagMessage := formatTag colorTag this in
  timestamp +:+ " " +:+ header +:+ " " +:+ tagMessage +:+ LF
    +:+ coloredMsg msgColor this.

(** The loop of [processLogQueue], run until it suspends on [await] or the
    queue is empty; [queue] is [this.logQueue] on entry. *)
Fixpoint drain (queue : list string) (this : Instance) : Instance :=
  match queue with
  | [] => set_writing false (set_logQueue [] this)
  | message :: rest =>
      if Js.truthy message then
        set_awaited (Some (logFileLocation this, message +:+ LF))
          (set_logQueue rest this)
      else drain rest this
  end.

(** [processLogQueue()] up to its first suspension. *)
Definition processLogQueue (this : Instance) : Instance :=
  drain (logQueue this) (set_writing true this).

(** [log(data)]: returns without waiting for any write. *)
Definition log (data : string) (this : Instance) : Instance :=
  if Js.truthy (logFileLocation this) then
    let this := set_logQueue (logQueue this ++ [data]) this in
    if negb (writing this) then processLogQueue this else this
  else set_console_log (console_log this ++ [data]) this.

(** [fs.promises.appendFile(path, data)] when it succeeds. *)
Definition appendFile (path data : string) (fs : gmap string string)
  : gmap string string :=
  <[path := default "" (fs !! path) +:+ data]> fs.

(** The awaited [appendFile] settles and [processLogQueue] resumes:
    [None] when it is fulfilled, [Some err] when it is rejected with [err]. *)
Definition settle (result : option string) (this : Instance) : Instance :=
  match awaited this with
  | Some (path, data) =>
      let this :=
        match result with
        | None => set_files (appendFile path data (files this)) this
        | Some err =>
            set_console_error
              (console_error this
                 ++ ["Failed to write log to file " +:+ logFileLocation this
                       +:+ ": " +:+ err]) this
        end in
      drain (logQueue this) (set_awaited None this)
  | None => this
  end.

Inductive Level := Info | Safe | Critical.

Definition level_colors (l : Level) : string * string * string :=
  match l with
  | Info => (DARK_BLUE, LIGHT_BLUE, LIGHT_TURQUOISE)
  | Safe => (DARK_TURQUOISE, LIGHT_TURQUOISE, LIGHT_GREEN)
  | Critical => (DARK_AMBER, LIGHT_RED, LIGHT_AMBER +:+ FLASHING)
  end.

(** The line that [infoMsg], [safeMsg] or [criticalMsg] hands to [log]. *)
Definition formatted (l : Level) (timeMsg msg tag : string) (this : Instance)
  : string :=
  let '(headerColor, msgColor, colorTag) := level_colors l in
  formatMessage timeMsg headerColor msgColor colorTag
    (set_message msg (set_tag tag this)).

(** [infoMsg], [safeMsg], [criticalMsg] by level. *)
Definition emit (l : Level) (timeMsg msg tag : string) (this : Instance)
  : Instance :=
  let this := set_message msg (set_tag tag this) in
  let '(headerColor, msgColor, colorTag) := level_colors l in
  log (formatMessage timeMsg headerColor msgColor colorTag this) this.

Definition infoMsg := emit Info.
Definition safeMsg := emit Safe.
Definition criticalMsg := emit Critical.

(** One step of an instance: a call of the facade by the application, or
    the settling of the write the drain waits for. *)
Inductive Label :=
| Call (l : Level) (timeMsg msg tag : string)
| Settled (result : option string).



(** The same steps as a function, for running a schedule. *)
Definition do_step (this : Instance) (label : Label) : Instance :=
  match label with
  | Call l timeMsg msg tag => emit l timeMsg msg tag this
  | Settled result => settle result this
  end.






(** The fields that neither the facade nor the drain assigns. *)
Definition same_settings (this0 this : Instance) : Prop :=
  appName this = appName this0 ∧ majorVersion this = majorVersion this0
  ∧ minorVersion this = minorVersion this0
  ∧ patchVersion this = patchVersion this0
  ∧ useColor this = useColor this0
  ∧ logFileLocation this = logFileLocation this0
  ∧ console_log this = console_log this0.

(** The lines not yet settled: the first is the one being written, the
    others wait in the queue; the writing flag is set exactly then. *)
Definition outstanding (path : string) (pending : list string)
    (this : Instance) : Prop :=
  match pending with
  | [] => awaited this = None ∧ logQueue this = [] ∧ writing this = false
  | line :: rest =>
      awaited this = Some (path, line +:+ LF) ∧ logQueue this = rest
      ∧ writing this = true
  end.


Definition run_schedule (this : Instance) (labels : list Label) : Instance :=
  foldl do_step this labels.

(** An instance that logs to [app.log], and three calls in a row. *)
Definition to_file : Instance :=
  logTo "app.log" (new "Test Author" "StateSafe Test" "1" "0" "0" ∅).

Definition three_calls : list Label :=
  [ Call Info "2026-01-01T00:00:00.000Z" "one" "";
    Call Safe "2026-01-01T00:00:00.001Z" "two" "DONE";
    Call Critical "2026-01-01T00:00:00.002Z" "three" "WARNING" ].

(** Steps in which [log] is handed any string. *)
Inductive RawLabel :=
| RawLog (data : string)
| RawSettled (result : option string).





Definition do_raw_step (this : Instance) (label : RawLabel) : Instance :=
  match label with
  | RawLog data => log data this
  | RawSettled result => settle result this
  end.


Definition raw_run (this : Instance) (labels : list RawLabel) : Instance :=
  foldl do_raw_step this labels.

(** A new instance, which logs to the console in colour. *)
Definition to_console : Instance :=
  new "Test Author" "StateSafe Test" "1" "0" "0" ∅.

(** The strings that are not empty, in order. *)
Definition nonempty (lines : list string) : list string :=
  filter (λ line, line ≠ "") lines.


(** The newline character. *)
Definition LFc : ascii := Ascii.ascii_of_nat 10.

(** A line of the body of a message, as [coloredMsg] writes it. *)
Definition body_line (color : string) (this : Instance) (line : string)
  : string :=
  if useColor this then "  " +:+ color +:+ line +:+ END else "  " +:+ line.

(** The first line of a plain log line. *)
Definition plain_header (timeMsg tag : string) (this : Instance) : string :=
  timeMsg +:+ " " +:+ version_text this +:+ " [" +:+ tag +:+ "]: ".

End StateSafe.


(** ** Vocabulary of the statements *)

(** What a call contributes to the record, without the result. *)
Definition slot (i : Invocation) : Phase * Origin * Callable :=
  (phase i, origin i, callee i).

(** A call of a guard: of the convention before-method or of a registered
    before-hook. *)
Definition is_guard (i : Invocation) : Prop :=
  phase i = Before ∧ origin i ≠ Dispatch.

(** The registered guards that ran: those before the first falsy result
    and that one. *)
Inductive guard_run : list Callable → bool → list Invocation → Prop :=
| guard_run_all : guard_run [] true []
| guard_run_stop hook rest :
    guard_run (hook :: rest) false [mkInvocation Before Registered hook false]
| guard_run_next hook rest r calls :
    guard_run rest r calls →
    guard_run (hook :: rest) r (mkInvocation Before Registered hook true :: calls).

Section Expected.

Context {U : Type}.
Variable run : Callable → list string → Obj U → bool * Obj U.
Variable STATE_show : bool.

(** An accessor reports empty or null. *)
Definition empty_or_null (v : option string) : Prop :=
  v = None ∨ v = Some "".

(** The registered transitions, while [transitions] is the array. *)
Definition transition_list (this : Obj U) : list TransitionData :=
  match transitions this with
  | Data registered => registered
  | Fn _ => []
  end.

(** The transition that a firing of [eventName] finds. *)
Definition find_transition (eventName : string) (this : Obj U)
  : option TransitionData :=
  found_in eventName (_state this) (transition_list this).

(** The context at the start of a firing: the four assignments of [fire]
    that precede the guards. *)
Definition enter (eventName : string) (transition : option TransitionData)
    (this : Obj U) : Obj U :=
  let this := set_transitionName (Some eventName) this in
  let this := set_fromState (_state this) this in
  let this := match transition with
              | Some t => set_toState (Some (TransitionData.to t)) this
              | None => this
              end in
  set_nextState (Some "") this.


(** The hooks that a table holds for [eventName]. *)
Definition hooks_for (table : HookTable) (eventName : string)
  : list Callable :=
  match lookup_hooks table eventName with
  | Hooks hooks => hooks
  | _ => []
  end.

(** [table[eventName]] is an array or falsy: [eventName] is not the name
    of a property that the table inherits. *)
Definition is_list (table : HookTable) (eventName : string) : bool :=
  match lookup_hooks table eventName with
  | Hooks _ | Undefined | Falsy => true
  | Foreign | Poisoned => false
  end.





(** One of [hooks], called in the order of the list as long as each
    returns a truthy value, starting on [this], returns a falsy value. *)
Fixpoint vetoes (hooks : list Callable) (this : Obj U) : Prop :=
  match hooks with
  | [] => False
  | hook :: rest =>
      (run hook [] this).1 = false
      ∨ ((run hook [] this).1 = true ∧ vetoes rest (run hook [] this).2)
  end.

(** A guard of a firing of [eventName] returns a falsy value: the
    convention before-method, called on the instance as the start of the
    firing sets it, or one of the registered before-hooks, called after
    it. *)
Definition vetoed (eventName : string) (this : Obj U) : Prop :=
  let view := enter eventName (find_transition eventName this) this in
  match get_function (nameConvert ("before_" +:+ eventName)) this with
  | Some hook =>
      (run hook [] view).1 = false
      ∨ vetoes (hooks_for (beforeHooks this) eventName) (run hook [] view).2
  | None => vetoes (hooks_for (beforeHooks this) eventName) view
  end.




(** The same, with the current state and the hook tables as they were:
    what the guards of a firing do. *)
Definition stays (this this' : Obj U) : Prop :=
  transitions this' = transitions this
  ∧ uniqueStates this' = uniqueStates this
  ∧ uniqueEvents this' = uniqueEvents this
  ∧ members this' = members this
  ∧ onHooks this' = onHooks this
  ∧ afterHooks this' = afterHooks this
  ∧ beforeHooks this' = beforeHooks this
  ∧ _state this' = _state this.

End Expected.

(** ** Vocabulary of the proofs *)

(** Every call that a computation makes satisfies [P]. *)
Definition calls_in {U A} (P : Invocation → Prop) (m : @M U A) : Prop :=
  ∀ this, Forall P (m this).2.

(** Started on an instance that satisfies [P], a computation leaves an
    instance related to it by [R], however it ends. *)
Definition guarantees {U A} (P : Obj U → Prop) (R : Obj U → Obj U → Prop)
    (m : @M U A) : Prop :=
  ∀ this, P this → R this (m this).1.2.

(** What such a pair of a condition and a relation has to satisfy. *)
Record Frame {U} (P : Obj U → Prop) (R : Obj U → Obj U → Prop) : Prop := {
  frame_refl : ∀ o, P o → R o o;
  frame_trans : ∀ a b c, R a b → R b c → R a c;
  frame_stable : ∀ o o', P o → R o o' → P o';
  frame_app : ∀ o a, P o → R o (set_app a o)
}.

(** A computation returned. *)
Definition returned {A} (c : Completion A) : Prop :=
  match c with
  | Normal _ => True
  | TypeError => False
  end.

(** ** Vocabulary for strings *)

(** [c] occurs in [s]. *)
Fixpoint occurs (c : ascii) (s : string) : bool :=
  match s with
  | EmptyString => false
  | String a r => Ascii.eqb a c || occurs c r
  end.

(** The name of the convention method of a phase for an event, spelled
    out: the phase, then the parts of the event between underscores, each
    with its first letter in upper case. *)
Definition convention_name (phase_word eventName : string) : string :=
  phase_word +:+ Js.join "" (map Js.capitalize (Js.split "_" eventName)).

(** ** Instances used in the examples *)

Module Demo.

(** The application state is a temperature.  [checkCondense] allows the
    transition below 120; a function called [veto] always returns false;
    every other function of the application returns true.  No instance
    below has a shortcut or an inherited method called by the engine. *)
Definition run (f : Callable) (args : list string) (this : Obj nat)
  : bool * Obj nat :=
  match f with
  | UserFn "checkCondense" => (bool_decide (app this < 120), this)
  | UserFn "veto" => (false, this)
  | UserFn _ => (true, this)
  | FireShortcut _ => (false, this)
  | Inherited _ => (false, this)
  end.

Definition methods : gmap string Callable :=
  list_to_map
    [ ("onCondense", UserFn "onCondense");
      ("showCondense", UserFn "showCondense");
      ("showCondense2", UserFn "showCondense2");
      ("checkCondense", UserFn "checkCondense");
      ("logFreeze", UserFn "logFreeze");
      ("logCondense", UserFn "logCondense");
      ("afterMyEvent", UserFn "afterMyEvent");
      ("onGo", UserFn "onGo") ].

(** The calls [ops] on a new instance. *)
Definition build (ops : list Op) (temperature : nat) : Obj nat :=
  apply_ops run false ops (new methods temperature).

(** The set-up of the test suite: two transitions, no state yet. *)
Definition water (temperature : nat) : Obj nat :=
  build [ OpTransition "freeze" "LIQUID" "SOLID";
          OpTransition "condense" "GAS" "LIQUID" ] temperature.

(** The class [Matter] of the README, reduced to the events of [water]. *)
Definition matter (temperature : nat) : Obj nat :=
  apply_ops run false
    [ OpAfter "freeze" (ByName "logFreeze");
      OpAfter "condense" (ByName "logCondense");
      OpBefore "condense" (ByName "checkCondense");
      OpOn "condense" (ByName "showCondense");
      OpOn "condense" (ByName "showCondense2") ]
    (water temperature).

Definition seeded (s : string) (this : Obj nat) : Obj nat :=
  (state (Some s) this).2.

(** Two registered guards on [condense]: [veto], then [checkCondense]. *)
Definition vetoed : Obj nat :=
  apply_ops run false
    [ OpBefore "condense" (ByFunction (UserFn "veto"));
      OpBefore "condense" (ByName "checkCondense") ]
    (seeded "GAS" (water 100)).

(** An instance with a method [afterMyEvent] and the event [my_event]. *)
Definition my_event : Obj nat :=
  seeded "A" (build [ OpTransition "my_event" "A" "B" ] 0).




(** An event with the name of a property that every object inherits. *)
Definition inherited_name : Obj nat :=
  build [ OpTransition "constructor" "A" "B"; OpState (Some "A") ] 0.

End Demo.

(** * Properties *)

(** ** The scenarios of the test suite and of the README *)

Example nameConvert_after_my_event :
  nameConvert "after_my_event" = "afterMyEvent".
Proof. reflexivity. Qed.

Example nameConvert_before_condense :
  nameConvert "before_condense" = "beforeCondense".
Proof. reflexivity. Qed.

Example water_states_events :
  states (Demo.water 0) = ["GAS"; "LIQUID"; "SOLID"]
  ∧ events (Demo.water 0) = ["condense"; "freeze"].
Proof. split; vm_compute; reflexivity. Qed.

Example fire_condense_then_freeze :
  _state (apply_ops Demo.run false
            [OpState (Some "GAS"); OpFire "condense"] (Demo.water 0))
  = Some "LIQUID"
  ∧ _state (apply_ops Demo.run false
              [OpState (Some "GAS"); OpFire "condense"; OpFire "freeze"]
              (Demo.water 0))
    = Some "SOLID".
Proof. split; vm_compute; reflexivity. Qed.

Example fire_condense_twice :
  _state (apply_ops Demo.run false
            [OpState (Some "GAS"); OpFire "condense"; OpFire "condense"]
            (Demo.water 0))
  = Some "LIQUID".
Proof. vm_compute. reflexivity. Qed.

Example fire_condense_by_temperature :
  _state (apply_ops Demo.run false
            [OpState (Some "GAS"); OpFire "condense"] (Demo.matter 130))
  = Some "GAS"
  ∧ _state (apply_ops Demo.run false
              [OpState (Some "GAS"); OpFire "condense"] (Demo.matter 100))
    = Some "LIQUID".
Proof. split; vm_compute; reflexivity. Qed.

Example illegal_state_and_second_seed :
  _state (apply_ops Demo.run false [OpState (Some "illegalState")]
            (Demo.water 0)) = None
  ∧ _state (apply_ops Demo.run false
              [OpState (Some "SOLID"); OpState (Some "LIQUID")] (Demo.water 0))
    = Some "SOLID".
Proof. split; vm_compute; reflexivity. Qed.

Example fire_by_shortcut :
  _state (apply_ops Demo.run false
            [OpState (Some "GAS"); OpCall "condense"; OpCall "freeze"]
            (Demo.water 0))
  = Some "SOLID".
Proof. vm_compute. reflexivity. Qed.

Example shortcuts_installed :
  members (Demo.water 0) !! "condense" = Some (FireShortcut "condense")
  ∧ members (Demo.water 0) !! "freeze" = Some (FireShortcut "freeze").
Proof. split; vm_compute; reflexivity. Qed.

(** An event named [constructor]: the hook tables inherit a property of
    that name, so a registration for the event throws, and so does a
    firing, after the context is set and before anything is committed. *)
Example inherited_event_name :
  (perform Demo.run false (OpOn "constructor" (ByFunction (UserFn "h")))
     Demo.inherited_name).1.1 = TypeError
  ∧ (fire Demo.run false "constructor" Demo.inherited_name).1.1 = TypeError
  ∧ _state (fire Demo.run false "constructor" Demo.inherited_name).1.2
    = Some "A"
  ∧ transitionName (fire Demo.run false "constructor" Demo.inherited_name).1.2
    = Some "constructor".
Proof. repeat split; vm_compute; reflexivity. Qed.


(** ** The plumbing of computations *)

Section Plumbing.

Context {U : Type}.
Variable run : Callable → list string → Obj U → bool * Obj U.
Implicit Types this : Obj U.
Implicit Types P : Invocation → Prop.

Lemma set_app_id this : set_app (app this) this = this.
Proof. by destruct this. Qed.

Lemma bind_normal {A B} (m : @M U A) (k : A → @M U B) this a this1 calls1 :
  m this = (Normal a, this1, calls1) →
  bind m k this
  = ((k a this1).1.1, (k a this1).1.2, calls1 ++ (k a this1).2).
Proof. unfold bind. intros ->. by destruct (k a this1) as [[b o] c]. Qed.

Lemma bind_throw {A B} (m : @M U A) (k : A → @M U B) this this1 calls1 :
  m this = (TypeError, this1, calls1) →
  bind m k this = (TypeError, this1, calls1).
Proof. unfold bind. by intros ->. Qed.

Lemma bind_get {B} (k : Obj U → @M U B) this : bind get k this = k this this.
Proof. unfold bind, get. by destruct (k this this) as [[b o] c]. Qed.



Lemma bind_read {A B} (field : Obj U → Field A) (k : A → @M U B) this a :
  field this = Data a → bind (read field) k this = k a this.
Proof.
  intros H. unfold read. rewrite (bind_normal _ _ this a this []).
  - by destruct (k a this) as [[b o] c].
  - rewrite bind_get, H. reflexivity.
Qed.

Lemma bind_read_fn {A B} (field : Obj U → Field A) (k : A → @M U B) this f :
  field this = Fn f → bind (read field) k this = (TypeError, this, []).
Proof.
  intros H. apply bind_throw. unfold read. rewrite bind_get, H. reflexivity.
Qed.

Lemma dispatch_own {A} (p : Phase) (m : string) (args : list string)
    (undefined : A) (body : @M U A) this :
  members this !! m = None →
  dispatch run p m args undefined body this = body this.
Proof. intros H. unfold dispatch. rewrite bind_get, H. reflexivity. Qed.


Lemma this_nameConvert_in_place (p : Phase) (s : string) this :
  members this !! "nameConvert" = None →
  this_nameConvert run p s this = (Normal (Some (nameConvert s)), this, []).
Proof. intros H. unfold this_nameConvert. by rewrite dispatch_own. Qed.

(** *** The calls of a computation *)

Lemma calls_in_ret {A} P (a : A) : calls_in P (@ret U A a).
Proof. intros this. constructor. Qed.

Lemma calls_in_throw {A} P : calls_in P (@throw U A).
Proof. intros this. constructor. Qed.

Lemma calls_in_get P : calls_in P (@get U).
Proof. intros this. constructor. Qed.

Lemma calls_in_modify P (f : Obj U → Obj U) : calls_in P (modify f).
Proof. intros this. constructor. Qed.

Lemma calls_in_lift {A} P (c : Completion A) : calls_in P (@lift U A c).
Proof. intros this. constructor. Qed.

Lemma calls_in_bind {A B} P (m : @M U A) (k : A → @M U B) :
  calls_in P m → (∀ a, calls_in P (k a)) → calls_in P (bind m k).
Proof.
  intros Hm Hk this. unfold bind. specialize (Hm this).
  destruct (m this) as [[[a|] this1] calls1]; simpl in *; [|done].
  specialize (Hk a this1). destruct (k a this1) as [[b this2] calls2].
  simpl in *. by apply Forall_app.
Qed.

Lemma calls_in_impl {A} P (Q : Invocation → Prop) (m : @M U A) :
  (∀ i, P i → Q i) → calls_in P m → calls_in Q m.
Proof. intros H Hm this. eapply Forall_impl; [apply Hm|exact H]. Qed.

Lemma calls_in_read {A} P (field : Obj U → Field A) : calls_in P (read field).
Proof.
  apply calls_in_bind; [apply calls_in_get|]. intros this.
  destruct (field this); [apply calls_in_ret|apply calls_in_throw].
Qed.

Lemma calls_in_call P (p : Phase) (g : Origin) (f : Callable)
    (args : list string) :
  (∀ r, P (mkInvocation p g f r)) → calls_in P (call run p g f args).
Proof.
  intros H this. unfold call. destruct (run f args this) as [r o].
  simpl. by repeat constructor.
Qed.

Lemma calls_in_every P (hooks : list Callable) :
  (∀ f r, P (mkInvocation Before Registered f r)) →
  calls_in P (every run hooks).
Proof.
  intros H. induction hooks as [|hook rest IH]; simpl.
  - apply calls_in_ret.
  - apply calls_in_bind; [by apply calls_in_call|].
    intros [|]; [exact IH|apply calls_in_ret].
Qed.

Lemma calls_in_forEach P (p : Phase) (hooks : list Callable) :
  (∀ f r, P (mkInvocation p Registered f r)) →
  calls_in P (forEach run p hooks).
Proof.
  intros H. induction hooks as [|hook rest IH]; simpl.
  - apply calls_in_ret.
  - apply calls_in_bind; [by apply calls_in_call|]. intros _. exact IH.
Qed.

Lemma calls_in_hooks_or_empty P (table : HookTable) (e : string) :
  calls_in P (@hooks_or_empty U table e).
Proof.
  unfold hooks_or_empty.
  destruct (lookup_hooks table e);
    first [apply calls_in_ret | apply calls_in_throw].
Qed.

(** *** The instance after a computation *)

Section Guarantees.

Variable Pre : Obj U → Prop.
Variable R : Obj U → Obj U → Prop.
Hypothesis frame : Frame Pre R.
Hypothesis run_keeps : keeps_engine run.

Lemma guarantees_ret {A} (a : A) : guarantees Pre R (ret a).
Proof. intros this H. by apply frame. Qed.

Lemma guarantees_throw {A} : guarantees Pre R (@throw U A).
Proof. intros this H. by apply frame. Qed.

Lemma guarantees_get : guarantees Pre R get.
Proof. intros this H. by apply frame. Qed.

Lemma guarantees_lift {A} (c : Completion A) : guarantees Pre R (lift c).
Proof. intros this H. by apply frame. Qed.

Lemma guarantees_modify (f : Obj U → Obj U) :
  (∀ o, Pre o → R o (f o)) → guarantees Pre R (modify f).
Proof. intros Hf this H. by apply Hf. Qed.

Lemma guarantees_bind {A B} (m : @M U A) (k : A → @M U B) :
  guarantees Pre R m → (∀ a, guarantees Pre R (k a)) →
  guarantees Pre R (bind m k).
Proof.
  intros Hm Hk this H. unfold bind. specialize (Hm this H).
  destruct (m this) as [[[a|] this1] calls1]; simpl in *; [|done].
  assert (Pre this1) as H1 by (by eapply frame).
  specialize (Hk a this1 H1). destruct (k a this1) as [[b this2] calls2].
  simpl in *. by eapply frame.
Qed.

Lemma guarantees_read {A} (field : Obj U → Field A) :
  guarantees Pre R (read field).
Proof.
  apply guarantees_bind; [apply guarantees_get|]. intros this.
  destruct (field this); [apply guarantees_ret|apply guarantees_throw].
Qed.

Lemma guarantees_call (p : Phase) (g : Origin) (f : Callable)
    (args : list string) :
  guarantees Pre R (call run p g f args).
Proof.
  intros this H. unfold call. pose proof (run_keeps f args this) as Hk.
  destruct (run f args this) as [r o]. simpl in *. rewrite Hk.
  by apply frame.
Qed.

Lemma guarantees_every (hooks : list Callable) :
  guarantees Pre R (every run hooks).
Proof.
  induction hooks as [|hook rest IH]; simpl.
  - apply guarantees_ret.
  - apply guarantees_bind; [apply guarantees_call|].
    intros [|]; [exact IH|apply guarantees_ret].
Qed.

Lemma guarantees_forEach (p : Phase) (hooks : list Callable) :
  guarantees Pre R (forEach run p hooks).
Proof.
  induction hooks as [|hook rest IH]; simpl.
  - apply guarantees_ret.
  - apply guarantees_bind; [apply guarantees_call|]. intros _. exact IH.
Qed.

Lemma guarantees_hooks_or_empty (table : HookTable) (e : string) :
  guarantees Pre R (hooks_or_empty table e).
Proof.
  unfold hooks_or_empty.
  destruct (lookup_hooks table e);
    first [apply guarantees_ret | apply guarantees_throw].
Qed.

End Guarantees.



(** *** A computation that returned *)

Lemma returned_bind {A B} (Q : Obj U → Prop) (m : @M U A) (k : A → @M U B) this :
  (∀ a o, returned (k a o).1.1 → Q (k a o).1.2) →
  returned (bind m k this).1.1 → Q (bind m k this).1.2.
Proof.
  intros Hk. unfold bind.
  destruct (m this) as [[[a|] this1] calls1]; simpl; [|done].
  specialize (Hk a this1). by destruct (k a this1) as [[b this2] calls2].
Qed.

End Plumbing.

(** Peeling a computation apart. *)
Ltac calls_step :=
  match goal with
  | |- calls_in _ (bind _ _) => apply calls_in_bind; [|intros ?]
  | |- calls_in _ (ret _) => apply calls_in_ret
  | |- calls_in _ throw => apply calls_in_throw
  | |- calls_in _ get => apply calls_in_get
  | |- calls_in _ (modify _) => apply calls_in_modify
  | |- calls_in _ (lift _) => apply calls_in_lift
  | |- calls_in _ (read _) => apply calls_in_read
  | |- calls_in _ (hooks_or_empty _ _) => apply calls_in_hooks_or_empty
  | |- calls_in _ (call _ _ _ _ _) =>
      apply calls_in_call; intros; simpl; try done
  | |- calls_in _ (every _ _) =>
      apply calls_in_every; intros; simpl; try done
  | |- calls_in _ (forEach _ _ _) =>
      apply calls_in_forEach; intros; simpl; try done
  | |- calls_in _ (match ?x with _ => _ end) => destruct x
  end.

Ltac frame_step frame keeps :=
  match goal with
  | |- guarantees _ _ (bind _ _) =>
      apply (guarantees_bind _ _ frame); [|intros ?]
  | |- guarantees _ _ (ret _) => apply (guarantees_ret _ _ frame)
  | |- guarantees _ _ throw => apply (guarantees_throw _ _ frame)
  | |- guarantees _ _ get => apply (guarantees_get _ _ frame)
  | |- guarantees _ _ (lift _) => apply (guarantees_lift _ _ frame)
  | |- guarantees _ _ (read _) => apply (guarantees_read _ _ frame)
  | |- guarantees _ _ (hooks_or_empty _ _) =>
      apply (guarantees_hooks_or_empty _ _ frame)
  | |- guarantees _ _ (call _ _ _ _ _) =>
      apply (guarantees_call _ _ _ frame keeps)
  | |- guarantees _ _ (every _ _) =>
      apply (guarantees_every _ _ _ frame keeps)
  | |- guarantees _ _ (forEach _ _ _) =>
      apply (guarantees_forEach _ _ _ frame keeps)
  | |- guarantees _ _ (match ?x with _ => _ end) => destruct x
  end.


(** ** The registry *)

Section Registry.

Context {U : Type}.
Variable run : Callable → list string → Obj U → bool * Obj U.
Implicit Types this : Obj U.

(** [states()] and [events()] list the members of the two sets, and
    nothing once a function has taken the place of the set. *)
Lemma elem_of_events this (w : string) :
  w ∈ events this ↔ ∃ known, uniqueEvents this = Data known ∧ w ∈ known.
Proof.
  unfold events. destruct (uniqueEvents this) as [known|f].
  - rewrite merge_sort_Permutation, elem_of_elements. split.
    + intros H. by exists known.
    + by intros (k & [= <-] & H).
  - split; [by intros ?%elem_of_nil|]. by intros (k & [=] & _).
Qed.







Lemma found_in_unseeded (e : string) (registered : list TransitionData) :
  found_in e None registered = None.
Proof.
  unfold found_in. induction registered as [|x l IH]; simpl; [done|].
  by rewrite andb_false_r.
Qed.



End Registry.


(** ** The calls made by the engine *)

Section Engine.

Context {U : Type}.
Variable run : Callable → list string → Obj U → bool * Obj U.
Variable STATE_show : bool.
Implicit Types this : Obj U.
Implicit Types calls : list Invocation.

Lemma guard_run_phase hooks r calls :
  guard_run hooks r calls → Forall (λ i, phase i = Before) calls.
Proof. induction 1; repeat constructor; done. Qed.

Lemma guard_run_origin hooks r calls :
  guard_run hooks r calls → Forall (λ i, origin i = Registered) calls.
Proof. induction 1; repeat constructor; done. Qed.


Lemma guard_run_true hooks calls :
  guard_run hooks true calls →
  map slot calls = map (λ h, (Before, Registered, h)) hooks
  ∧ Forall (λ i, truthy i = true) calls.
Proof.
  remember true as r eqn:Hr. induction 1; simpl; try done.
  destruct (IHguard_run Hr) as [-> ?]. split; [done|by constructor].
Qed.

Lemma guard_run_result hooks r calls :
  guard_run hooks r calls → r = forallb truthy calls.
Proof. induction 1; simpl; done. Qed.

Lemma call_eq (p : Phase) (g : Origin) (f : Callable) (args : list string)
    this :
  call run p g f args this
  = (Normal (run f args this).1, (run f args this).2,
     [mkInvocation p g f (run f args this).1]).
Proof. unfold call. by destruct (run f args this). Qed.

(** [every] and [forEach] return: the functions they call do. *)
Lemma every_total (hooks : list Callable) this :
  ∃ c this' calls,
    every run hooks this = (Normal c, this', calls)
    ∧ guard_run hooks c calls
    ∧ (keeps_engine run → ∃ a, this' = set_app a this)
    ∧ (c = false ↔ vetoes run hooks this).
Proof.
  revert this. induction hooks as [|hook rest IH]; intros this; simpl.
  - exists true, this, []. split; [done|]. split; [constructor|].
    split; [|by split]. intros _. exists (app this). by rewrite set_app_id.
  - destruct (run hook [] this) as [r this1] eqn:Hr.
    rewrite (bind_normal _ _ this r this1
               [mkInvocation Before Registered hook r])
      by (by rewrite call_eq, Hr).
    destruct r; simpl.
    + destruct (IH this1) as (c & this' & calls & -> & Hg & Hk & Hv).
      exists c, this', (mkInvocation Before Registered hook true :: calls).
      split; [done|]. split; [by constructor|]. split.
      * intros Hkeep. destruct (Hk Hkeep) as [a ->].
        pose proof (Hkeep hook [] this) as H1. rewrite Hr in H1.
        simpl in H1. rewrite H1. by exists a.
      * rewrite Hv. split; [by right|]. by intros [? | [_ ?]].
    + exists false, this1, [mkInvocation Before Registered hook false].
      split; [done|]. split; [constructor|]. split.
      * intros Hkeep. pose proof (Hkeep hook [] this) as H1.
        rewrite Hr in H1. simpl in H1. eauto.
      * split; [by left|done].
Qed.


(** *** The phases *)

Lemma fire_guards_phase (e : string) (tr : option TransitionData) :
  calls_in (λ i, phase i = Before) (fire_guards run e tr).
Proof.
  unfold fire_guards, this_nameConvert, dispatch. repeat calls_step.
Qed.

Lemma stateChanged_phase (func : string) :
  calls_in (λ i, phase i = Notice) (stateChanged run STATE_show func).
Proof.
  unfold stateChanged, dispatch. repeat calls_step.
Qed.

Lemma fire_proceed_phase (e : string) (t : TransitionData) :
  calls_in (λ i, phase i ≠ Before) (fire_proceed run STATE_show e t).
Proof.
  unfold fire_proceed, this_nameConvert, call_convention, invokeOnHooks,
    invokeAfterHooks, dispatch.
  repeat calls_step.
  all: apply (calls_in_impl (λ i, phase i = Notice));
    [by intros ? ->|apply stateChanged_phase].
Qed.

End Engine.


(** ** The two halves of a firing *)

Section Halves.

Context {U : Type}.
Variable run : Callable → list string → Obj U → bool * Obj U.
Variable STATE_show : bool.
Implicit Types this : Obj U.
Implicit Types calls : list Invocation.

(** The guards, when they return: the call that stands in for
    [nameConvert], if there is one; the convention method, if there is
    one; the registered hooks up to the first falsy result. *)
Lemma fire_guards_returned (e : string) (tr : option TransitionData) this
    (c1 c2 : bool) (o : Obj U) calls :
  fire_guards run e tr this = (Normal (c1, c2), o, calls) →
  ∃ pre this0 method conv this1 explicit,
    match members this !! "nameConvert" with
    | Some f =>
        pre = [mkInvocation Before Dispatch f
                 (run f ["before_" +:+ e] this).1]
        ∧ this0 = (run f ["before_" +:+ e] this).2 ∧ method = "undefined"
    | None => pre = [] ∧ this0 = this
              ∧ method = nameConvert ("before_" +:+ e)
    end
    ∧ is_list (beforeHooks this0) e = true
    ∧ match get_function method this0 with
      | Some hook =>
          conv = [mkInvocation Before Convention hook c2]
          ∧ c2 = (run hook [] (enter e tr this0)).1
          ∧ this1 = (run hook [] (enter e tr this0)).2
      | None => conv = [] ∧ c2 = true ∧ this1 = enter e tr this0
      end
    ∧ every run (hooks_for (beforeHooks this0) e) this1
      = (Normal c1, o, explicit)
    ∧ calls = pre ++ conv ++ explicit.
Proof.
  intros H. unfold fire_guards, this_nameConvert, dispatch in H.
  unfold hooks_for, is_list, enter.
  unfold hooks_or_empty, key in H. cbv [from_option id] in H.
  unfold bind, get, ret, modify, throw, call in H.
  repeat (case_match; simpl in *; simplify_eq).
  all: try (destruct tr; simpl in *; simplify_eq).
  all: do 6 eexists; (split; [by repeat split|]);
    repeat match goal with
           | E : lookup_hooks _ _ = _ |- _ => rewrite !E; clear E
           | E : get_function _ _ = _ |- _ => rewrite !E; clear E
           | E : run _ _ _ = _ |- _ => rewrite !E; clear E
           end; simpl;
    (split; [done|]); (split; [by repeat split|]); simpl;
    (split; [eassumption|]); simpl; by rewrite ?app_nil_r.
Qed.


(** The ways through [fire]. *)
Lemma fire_no_events (e : string) this f :
  uniqueEvents this = Fn f → fire run STATE_show e this = (TypeError, this, []).
Proof. intros H. unfold fire. by rewrite (bind_read_fn _ _ _ _ H). Qed.

Lemma fire_unregistered (e : string) this known :
  uniqueEvents this = Data known → e ∉ known →
  fire run STATE_show e this = (Normal tt, this, []).
Proof.
  intros H Hne. unfold fire. rewrite (bind_read _ _ _ _ H).
  by rewrite bool_decide_false.
Qed.

Lemma fire_no_transitions (e : string) this known f :
  uniqueEvents this = Data known → e ∈ known → transitions this = Fn f →
  fire run STATE_show e this = (TypeError, this, []).
Proof.
  intros H He Ht. unfold fire. rewrite (bind_read _ _ _ _ H).
  rewrite bool_decide_true by done. by rewrite (bind_read_fn _ _ _ _ Ht).
Qed.

Lemma fire_registered (e : string) this known registered :
  uniqueEvents this = Data known → e ∈ known →
  transitions this = Data registered →
  fire run STATE_show e this
  = bind (fire_guards run e (find_transition e this))
      (λ c, match find_transition e this with
            | Some t =>
                if c.1 && c.2 then fire_proceed run STATE_show e t else ret tt
            | None => ret tt
            end) this.
Proof.
  intros H He Ht. unfold fire. rewrite (bind_read _ _ _ _ H).
  rewrite bool_decide_true by done. rewrite (bind_read _ _ _ _ Ht).
  rewrite bind_get. unfold find_transition, transition_list. rewrite Ht.
  unfold bind. destruct (fire_guards run e _ this) as [[[[c1 c2]|] o] calls];
    done.
Qed.

(** A firing that returned and found a transition either ended with the
    guards, one of the two flags being false, or ran its second half. *)
Lemma fire_returned (e : string) this :
  e ∈ events this →
  returned (fire run STATE_show e this).1.1 →
  ∃ c1 c2 o calls,
    fire_guards run e (find_transition e this) this
    = (Normal (c1, c2), o, calls)
    ∧ ((fire run STATE_show e this = (Normal tt, o, calls)
        ∧ (find_transition e this = None ∨ c1 && c2 = false))
       ∨ ∃ t, find_transition e this = Some t ∧ c1 && c2 = true
              ∧ returned (fire_proceed run STATE_show e t o).1.1
              ∧ (fire run STATE_show e this).1.2
                = (fire_proceed run STATE_show e t o).1.2
              ∧ (fire run STATE_show e this).2
                = calls ++ (fire_proceed run STATE_show e t o).2).
Proof.
  intros (known & Hk & He)%elem_of_events Hret.
  destruct (transitions this) as [registered|f] eqn:Ht.
  2: { rewrite (fire_no_transitions e this known f) in Hret; done. }
  rewrite (fire_registered e this known registered) in Hret |- * by done.
  destruct (fire_guards run e (find_transition e this) this)
    as [[[[c1 c2]|] o] calls] eqn:Hg.
  2: { by rewrite (bind_throw _ _ _ _ _ Hg) in Hret. }
  exists c1, c2, o, calls. split; [done|].
  rewrite (bind_normal _ _ _ _ _ _ Hg) in Hret |- *. simpl in *.
  destruct (find_transition e this) as [t|].
  - destruct (c1 && c2) eqn:Hc.
    + right. exists t. done.
    + left. simpl. rewrite app_nil_r. auto.
  - left. simpl. rewrite app_nil_r. auto.
Qed.

(** The last four assignments of the second half clear the context,
    whatever was called before them. *)
Lemma fire_proceed_clears (e : string) (t : TransitionData) this :
  returned (fire_proceed run STATE_show e t this).1.1 →
  context_cleared (fire_proceed run STATE_show e t this).1.2.
Proof.
  unfold fire_proceed.
  do 10 (apply returned_bind; intros ? ?). intros _. by repeat split.
Qed.

End Halves.


(** ** Functions that leave the engine alone *)

Section KeepsEngine.

Context {U : Type}.
Variable run : Callable → list string → Obj U → bool * Obj U.
Variable STATE_show : bool.
Hypothesis run_keeps : keeps_engine run.
Implicit Types this : Obj U.
Implicit Types calls : list Invocation.

Lemma stays_frame : Frame (λ _ : Obj U, True) stays.
Proof.
  split.
  - intros o _. by repeat split.
  - intros a b c (?&?&?&?&?&?&?&?) (?&?&?&?&?&?&?&?).
    repeat split; congruence.
  - done.
  - intros o a _. by repeat split.
Qed.




(** The guards leave everything but the context and the application's
    state as it was. *)
Lemma fire_guards_stays (e : string) (tr : option TransitionData) :
  guarantees (λ _, True) stays (fire_guards run e tr).
Proof.
  unfold fire_guards, this_nameConvert, dispatch.
  repeat frame_step stays_frame run_keeps.
  all: apply (guarantees_modify _ _); intros o _; by repeat split.
Qed.








End KeepsEngine.


(** ** The firing protocol *)

Section Firing.

Context {U : Type}.
Variable run : Callable → list string → Obj U → bool * Obj U.
Variable STATE_show : bool.
Implicit Types this : Obj U.
Implicit Types calls : list Invocation.

Lemma set_app_set_app (a b : U) this :
  set_app a (set_app b this) = set_app a this.
Proof. reflexivity. Qed.

Lemma enter_set_app (e : string) (tr : option TransitionData) (a : U) this :
  enter e tr (set_app a this) = set_app a (enter e tr this).
Proof. by destruct tr. Qed.

(** Both flags are true exactly when every guard that was called returned
    a truthy value. *)
Lemma guards_flags (e : string) (tr : option TransitionData) this
    (c1 c2 : bool) (o : Obj U) calls :
  fire_guards run e tr this = (Normal (c1, c2), o, calls) →
  c1 && c2 = true ↔ Forall (λ i, is_guard i → truthy i = true) calls.
Proof.
  intros H.
  destruct (fire_guards_returned run e tr this c1 c2 o calls H)
    as (pre & this0 & method & conv & this1 & explicit
        & Hpre & _ & Hconv & Hev & ->).
  destruct (every_total run (hooks_for (beforeHooks this0) e) this1)
    as (c & o' & calls' & He & Hg & _).
  rewrite Hev in He. simplify_eq.
  assert (Forall (λ i, origin i = Dispatch) pre) as Hd.
  { destruct (members this !! "nameConvert"); destruct Hpre as (-> & _);
      by repeat constructor. }
  assert (conv = [] ∧ c2 = true
          ∨ ∃ hook, conv = [mkInvocation Before Convention hook c2]) as Hc.
  { destruct (get_function method this0) as [hook|].
    - right. exists hook. by destruct Hconv.
    - left. by destruct Hconv as (? & ? & _). }
  rewrite andb_true_iff, !Forall_app. split.
  - intros [-> ->]. split; [|split].
    + eapply Forall_impl; [exact Hd|]. by intros i Hi [_ ?].
    + destruct Hc as [[-> _] | (hook & ->)]; by repeat constructor.
    + apply guard_run_true in Hg as [_ Hg].
      eapply Forall_impl; [exact Hg|]. by intros i Hi _.
  - intros (_ & Hconv' & Hexp). split.
    + rewrite (guard_run_result _ _ _ Hg). apply forallb_forall.
      intros i Hi%list_elem_of_In.
      pose proof (guard_run_phase _ _ _ Hg) as Hp.
      pose proof (guard_run_origin _ _ _ Hg) as Ho.
      rewrite Forall_forall in Hexp, Hp, Ho. apply Hexp; [done|].
      split; [by apply Hp|]. rewrite (Ho i Hi). done.
    + destruct Hc as [[_ ->] | (hook & ->)]; [done|].
      apply Forall_cons in Hconv' as [Hc2 _]. by apply Hc2.
Qed.

(** With functions that leave the engine alone, the guards leave the
    instance as the start of the firing set it. *)
Lemma fire_guards_keeps (e : string) (tr : option TransitionData) this
    (c1 c2 : bool) (o : Obj U) calls :
  keeps_engine run →
  fire_guards run e tr this = (Normal (c1, c2), o, calls) →
  ∃ a, o = set_app a (enter e tr this).
Proof.
  intros Hk H.
  destruct (fire_guards_returned run e tr this c1 c2 o calls H)
    as (pre & this0 & method & conv & this1 & explicit
        & Hpre & _ & Hconv & Hev & _).
  assert (∃ a, this0 = set_app a this) as [a0 ->].
  { destruct (members this !! "nameConvert") as [f|].
    - destruct Hpre as (_ & -> & _). rewrite (Hk f _ this). eauto.
    - destruct Hpre as (_ & -> & _). exists (app this).
      by rewrite set_app_id. }
  assert (∃ a, this1 = set_app a (enter e tr this)) as [a1 ->].
  { destruct (get_function method _) as [hook|].
    - destruct Hconv as (_ & _ & ->). rewrite (Hk hook [] _).
      rewrite enter_set_app. eauto.
    - destruct Hconv as (_ & _ & ->). rewrite enter_set_app. eauto. }
  destruct (every_total run (hooks_for (beforeHooks (set_app a0 this)) e)
              (set_app a1 (enter e tr this)))
    as (c & o' & calls' & He & _ & Hkeep & _).
  rewrite Hev in He. simplify_eq. destruct (Hkeep Hk) as [a ->]. eauto.
Qed.


(** C1, as the code has it, for a call of [fire] that returns.  The four
    context accessors report the empty string after a firing that
    committed: the event is registered, a transition for it leaves the
    current state, and every guard that was called returned a truthy
    value.  After a firing of a registered event that did not commit (no
    transition from the current state, or a guard returned a falsy value)
    the context is not cleared: with functions that leave the engine
    alone, the instance is left as the start of the firing set it, with
    [transitionName()] the event, [fromState()] the current state,
    [toState()] the target of the transition when there is one and
    [nextState()] empty.  A firing of an unregistered event changes
    nothing and calls nothing. *)
Theorem C1_context_after_fire (e : string) this :
  let r := fire run STATE_show e this in
  returned r.1.1 →
  (e ∈ events this →
   is_Some (find_transition e this) →
   Forall (λ i, is_guard i → truthy i = true) r.2 →
   context_cleared r.1.2)
  ∧ (keeps_engine run →
     e ∈ events this →
     find_transition e this = None
     ∨ Exists (λ i, is_guard i ∧ truthy i = false) r.2 →
     ∃ a, r.1.2 = set_app a (enter e (find_transition e this) this))
  ∧ (e ∉ events this → r = (Normal tt, this, [])).
Proof.
  intros r Hret. subst r. split; [|split].
  - intros He [t Ht] Hall.
    destruct (fire_returned run STATE_show e this He Hret)
      as (c1 & c2 & o & calls & Hg & [(Hf & Hb) | (t' & _ & _ & Hr & -> & _)]).
    + exfalso. destruct Hb as [Hb | Hb]; [congruence|].
      rewrite Hf in Hall. simpl in Hall.
      apply (guards_flags e _ this c1 c2 o calls Hg) in Hall. congruence.
    + by apply fire_proceed_clears.
  - intros Hk He Hb.
    destruct (fire_returned run STATE_show e this He Hret)
      as (c1 & c2 & o & calls & Hg
          & [(-> & _) | (t & Ht & Hc & _ & _ & Hcalls)]).
    + simpl. by eapply fire_guards_keeps.
    + exfalso. destruct Hb as [Hb | Hb]; [congruence|].
      rewrite Hcalls in Hb. apply Exists_app in Hb as [Hb | Hb].
      * apply (guards_flags e _ this c1 c2 o calls Hg) in Hc.
        apply Exists_exists in Hb as (i & Hi & Hgu & Hf).
        rewrite Forall_forall in Hc. rewrite (Hc i Hi Hgu) in Hf. done.
      * pose proof (fire_proceed_phase run STATE_show e t o) as Hp.
        apply Exists_exists in Hb as (i & Hi & [Hphase _] & _).
        rewrite Forall_forall in Hp. by apply (Hp i).
  - intros Hne. destruct (uniqueEvents this) as [known|f] eqn:Hk.
    + apply (fire_unregistered run STATE_show e this known Hk).
      intros Hin. apply Hne, elem_of_events. eauto.
    + by rewrite (fire_no_events run STATE_show e this f Hk) in Hret.
Qed.




End Firing.


(** ** The calls of a committed firing *)

Section Committed.

Context {U : Type}.
Variable run : Callable → list string → Obj U → bool * Obj U.
Variable STATE_show : bool.
Hypothesis run_keeps : keeps_engine run.
Implicit Types this : Obj U.
Implicit Types calls : list Invocation.

(** What [this[name]] finds depends on the array, the two sets, the three
    tables and the functions of the instance. *)
Lemma get_function_fields (name : string) this this' :
  transitions this' = transitions this →
  uniqueStates this' = uniqueStates this →
  uniqueEvents this' = uniqueEvents this →
  onHooks this' = onHooks this →
  afterHooks this' = afterHooks this →
  beforeHooks this' = beforeHooks this →
  members this' = members this →
  get_function name this' = get_function name this.
Proof. unfold get_function. by intros -> -> -> -> -> -> ->. Qed.










End Committed.


(** ** Every instance the operations can reach *)

Section Reachable.

Context {U : Type}.
Variable run : Callable → list string → Obj U → bool * Obj U.
Variable STATE_show : bool.
Hypothesis run_keeps : keeps_engine run.
Implicit Types this : Obj U.















End Reachable.


(** C10.  [state("")] is a read: the empty string is falsy, so the call
    returns the current state and leaves the instance as it is, as
    [state()] does; on a seeded instance the result is the state and not
    null. *)
Theorem C10_state_empty_string_reads :
  (∀ U (this : Obj U),
     state (Some "") this = (Normal (_state this), this)
     ∧ state (Some "") this = state None this)
  ∧ (state (Some "") (Demo.seeded "GAS" (Demo.water 0))).1
    = Normal (Some "GAS")
  ∧ (state (Some "LIQUID") (Demo.seeded "GAS" (Demo.water 0))).1
    = Normal None.
Proof. split; [done|]. split; vm_compute; reflexivity. Qed.


(** ** The statements on the instances of [Demo] *)

Lemma demo_run_keeps_engine : keeps_engine Demo.run.
Proof.
  intros f args this. unfold Demo.run.
  repeat case_match; simpl; by rewrite set_app_id.
Qed.

(** C1 as the specification has it fails.  A firing that a guard blocks
    returns with the context of the firing still in place; so does a
    firing of a registered event on an instance that was never seeded. *)
Lemma C1_blocked_fire_keeps_context :
  let blocked := fire Demo.run false "condense" Demo.vetoed in
  let unseeded := fire Demo.run false "condense" (Demo.water 100) in
  (blocked.1.1 = Normal tt
   ∧ _state blocked.1.2 = Some "GAS"
   ∧ transitionName blocked.1.2 = Some "condense"
   ∧ fromState blocked.1.2 = Some "GAS"
   ∧ toState blocked.1.2 = Some "LIQUID"
   ∧ ¬ empty_or_null (transitionName blocked.1.2)
   ∧ ¬ empty_or_null (fromState blocked.1.2)
   ∧ ¬ empty_or_null (toState blocked.1.2))
  ∧ (unseeded.1.1 = Normal tt
     ∧ _state unseeded.1.2 = None
     ∧ transitionName unseeded.1.2 = Some "condense"
     ∧ ¬ empty_or_null (transitionName unseeded.1.2)).
Proof.
  vm_compute. repeat split; try reflexivity; intros [H | H]; discriminate H.
Qed.

Lemma C1_context_after_fire_witness :
  context_cleared
    (fire Demo.run false "condense" (Demo.seeded "GAS" (Demo.matter 100))).1.2
  ∧ (∃ a, (fire Demo.run false "condense" Demo.vetoed).1.2
          = set_app a (enter "condense"
                         (find_transition "condense" Demo.vetoed) Demo.vetoed))
  ∧ fire Demo.run false "melts" Demo.vetoed = (Normal tt, Demo.vetoed, []).
Proof.
  split; [|split].
  - destruct (C1_context_after_fire Demo.run false "condense"
                (Demo.seeded "GAS" (Demo.matter 100))) as (H & _ & _).
    + vm_compute. exact I.
    + apply H.
      * compute_done.
      * vm_compute. eauto.
      * compute_done.
  - destruct (C1_context_after_fire Demo.run false "condense" Demo.vetoed)
      as (_ & H & _).
    + vm_compute. exact I.
    + apply H.
      * exact demo_run_keeps_engine.
      * compute_done.
      * right. compute_done.
  - destruct (C1_context_after_fire Demo.run false "melts" Demo.vetoed)
      as (_ & _ & H).
    + vm_compute. exact I.
    + apply H. compute_done.
Defined.







(** C6 on the code.  The instance has a method [afterMyEvent].
    Registering it by name as an after-hook of [my_event] returns and
    extends the list, and a committed firing of [my_event] then calls it
    twice: once as the convention method and once as a registered hook. *)
Theorem C6_after_registers_convention_name :
  let registered := after "my_event" (ByName "afterMyEvent") Demo.my_event in
  let this := registered.1.2 in
  nameConvert "after_my_event" = "afterMyEvent"
  ∧ hooks_for (afterHooks Demo.my_event) "my_event" = []
  ∧ registered.1.1 = Normal tt
  ∧ hooks_for (afterHooks this) "my_event" = [UserFn "afterMyEvent"]
  ∧ (fire Demo.run false "my_event" this).1.1 = Normal tt
  ∧ _state (fire Demo.run false "my_event" this).1.2 = Some "B"
  ∧ map slot (fire Demo.run false "my_event" this).2
    = [(After, Convention, UserFn "afterMyEvent");
       (After, Registered, UserFn "afterMyEvent")].
Proof.
  intros registered this.
  do 6 (split; [vm_compute; reflexivity|]). vm_compute; reflexivity.
Qed.

(** [before] and [on] have the test that [after] lacks: with [nameConvert]
    in its place, a registration under the convention name returns at
    once, and the instance is unchanged. *)
Lemma before_on_convention_name {U : Type}
    (run : Callable → list string → Obj U → bool * Obj U)
    (e : string) (this : Obj U) :
  members this !! "nameConvert" = None →
  before run e (ByName (nameConvert ("before_" +:+ e))) this
  = (Normal tt, this, [])
  ∧ on run e (ByName (nameConvert ("on_" +:+ e))) this
    = (Normal tt, this, []).
Proof.
  intros Hm. split.
  - unfold before.
    rewrite (bind_normal _ _ _ _ _ _
               (this_nameConvert_in_place run Setup _ this Hm)).
    unfold is_name. by rewrite String.eqb_refl.
  - unfold on.
    rewrite (bind_normal _ _ _ _ _ _
               (this_nameConvert_in_place run Setup _ this Hm)).
    unfold is_name. by rewrite String.eqb_refl.
Qed.





(** ** The log queue *)

Module StateSafeFacts.
Import StateSafe.




Lemma truthy_nonempty (s : string) : s ≠ "" → Js.truthy s = true.
Proof. intros H. unfold Js.truthy. apply negb_true_iff. by apply String.eqb_neq. Qed.

Lemma emit_log l (timeMsg msg tag : string) (this : Instance) :
  emit l timeMsg msg tag this
  = log (formatted l timeMsg msg tag this) (set_message msg (set_tag tag this)).
Proof. unfold emit, formatted. by destruct (level_colors l) as [[c1 c2] c3]. Qed.


(** The loop on a queue of non-empty lines. *)
Lemma drain_outstanding (queue : list string) (this : Instance) :
  Forall (λ line, line ≠ "") queue →
  awaited this = None →
  writing this = true →
  outstanding (logFileLocation this) queue (drain queue this)
  ∧ same_settings this (drain queue this)
  ∧ files (drain queue this) = files this
  ∧ console_error (drain queue this) = console_error this.
Proof.
  intros Hq Ha Hw. destruct queue as [|line rest]; simpl.
  - by repeat split.
  - inv Hq. rewrite truthy_nonempty by done. simpl. by repeat split.
Qed.











End StateSafeFacts.



(** The second of three writes is rejected: the first and the third line
    are in the file, in this order, and the failure is on
    [console.error]. *)
Example log_queue_rejected_write :
  let this0 := StateSafe.to_file in
  let labels :=
    StateSafe.three_calls
    ++ [StateSafe.Settled None; StateSafe.Settled (Some "EACCES");
        StateSafe.Settled None] in
  let this := StateSafe.run_schedule this0 labels in
  StateSafe.files this !! "app.log"
  = Some (("2026-01-01T00:00:00.000Z StateSafe Test(v1.0.0) []: "
             +:+ StateSafe.LF +:+ "  one" +:+ StateSafe.LF)
          +:+ "2026-01-01T00:00:00.002Z StateSafe Test(v1.0.0) [WARNING]: "
          +:+ StateSafe.LF +:+ "  three" +:+ StateSafe.LF)
  ∧ StateSafe.console_error this
    = ["Failed to write log to file app.log: EACCES"]
  ∧ StateSafe.writing this = false.
Proof. repeat split; vm_compute; reflexivity. Qed.

(** * More of the code *)

(** ** split, join and nameConvert *)

Section Names.

Implicit Types s p : string.
Implicit Types a c sep : ascii.

Lemma app_cons a s1 s2 : String a s1 +:+ s2 = String a (s1 +:+ s2).
Proof. reflexivity. Qed.

Lemma app_empty_l s : "" +:+ s = s.
Proof. reflexivity. Qed.

Lemma app_empty_r s : s +:+ "" = s.
Proof. induction s as [|a s IH]; [done|]. by rewrite app_cons, IH. Qed.

Lemma app_assoc_string s1 s2 s3 : (s1 +:+ s2) +:+ s3 = s1 +:+ s2 +:+ s3.
Proof. induction s1 as [|a s1 IH]; [done|]. by rewrite !app_cons, IH. Qed.

Lemma occurs_app c s1 s2 : occurs c (s1 +:+ s2) = occurs c s1 || occurs c s2.
Proof.
  induction s1 as [|a s1 IH]; [done|].
  rewrite app_cons. simpl. by rewrite IH, orb_assoc.
Qed.

Lemma split_nonempty sep s : Js.split sep s ≠ [].
Proof.
  destruct s as [|a s]; simpl; [done|].
  destruct (Ascii.eqb a sep); [done|]. by destruct (Js.split sep s).
Qed.

Lemma split_no_sep sep s :
  Forall (λ p, occurs sep p = false) (Js.split sep s).
Proof.
  induction s as [|a s IH]; simpl; [by repeat constructor|].
  destruct (Ascii.eqb a sep) eqn:Ha; [constructor; [reflexivity|exact IH]|].
  destruct (Js.split sep s) as [|p ps].
  - constructor; [|constructor]. simpl. by rewrite Ha.
  - apply Forall_cons in IH as [Hp Hps]. constructor; [|done].
    simpl. by rewrite Ha.
Qed.

(** Without the separator there is one part, the string itself. *)
Lemma split_plain sep s : occurs sep s = false → Js.split sep s = [s].
Proof.
  induction s as [|a s IH]; simpl; [done|].
  intros [Ha Hs]%orb_false_elim. rewrite Ha, (IH Hs). done.
Qed.

(** A part without the separator, the separator, and the rest. *)
Lemma split_app_sep sep p s :
  occurs sep p = false →
  Js.split sep (p +:+ String sep s) = p :: Js.split sep s.
Proof.
  induction p as [|a p IH]; simpl.
  - intros _. rewrite ?app_empty_l. simpl. by rewrite Ascii.eqb_refl.
  - intros [Ha Hp]%orb_false_elim. rewrite ?app_cons. simpl.
    rewrite Ha, (IH Hp). done.
Qed.

(** Joining the parts of [s.split(sep)] with the separator gives [s]
    back. *)
Lemma join_split sep s : Js.join (String sep "") (Js.split sep s) = s.
Proof.
  induction s as [|a s IH]; simpl; [done|].
  destruct (Ascii.eqb a sep) eqn:Ha.
  - apply Ascii.eqb_eq in Ha as ->.
    pose proof (split_nonempty sep s) as Hne.
    destruct (Js.split sep s) as [|p ps]; [done|].
    change (Js.join (String sep "") ("" :: p :: ps))
      with ("" +:+ String sep "" +:+ Js.join (String sep "") (p :: ps)).
    rewrite IH. done.
  - pose proof (split_nonempty sep s) as Hne.
    destruct (Js.split sep s) as [|p ps]; [done|].
    destruct ps as [|q ps].
    + simpl in *. by rewrite IH.
    + change (Js.join (String sep "") (String a p :: q :: ps))
        with (String a (p +:+ String sep "" +:+ Js.join (String sep "") (q :: ps))).
      change (Js.join (String sep "") (p :: q :: ps))
        with (p +:+ String sep "" +:+ Js.join (String sep "") (q :: ps)) in IH.
      by rewrite IH.
Qed.

(** Splitting what [join] made of parts that are free of the separator
    gives the parts back; the list of parts must not be empty. *)
Lemma split_join sep (parts : list string) :
  parts ≠ [] →
  Forall (λ p, occurs sep p = false) parts →
  Js.split sep (Js.join (String sep "") parts) = parts.
Proof.
  intros Hne Hall. induction Hall as [|p ps Hp Hps IH]; [done|].
  destruct ps as [|q ps].
  - simpl. by apply split_plain.
  - change (Js.join (String sep "") (p :: q :: ps))
      with (p +:+ String sep ("" +:+ Js.join (String sep "") (q :: ps))).
    rewrite split_app_sep by done. rewrite app_empty_l. by rewrite IH.
Qed.

Lemma lower_underscore c : Ascii.eqb (Js.lower c) "_" = Ascii.eqb c "_".
Proof. destruct c as [[] [] [] [] [] [] [] []]; reflexivity. Qed.

Lemma upper_underscore c : Ascii.eqb (Js.upper c) "_" = Ascii.eqb c "_".
Proof. destruct c as [[] [] [] [] [] [] [] []]; reflexivity. Qed.

Lemma occurs_toLowerCase s :
  occurs "_" (Js.toLowerCase s) = occurs "_" s.
Proof.
  induction s as [|a s IH]; simpl; [done|]. by rewrite lower_underscore, IH.
Qed.

Lemma occurs_capitalize s : occurs "_" (Js.capitalize s) = occurs "_" s.
Proof. destruct s as [|a s]; simpl; [done|]. by rewrite upper_underscore. Qed.

Lemma occurs_join_empty c (parts : list string) :
  Forall (λ p, occurs c p = false) parts →
  occurs c (Js.join "" parts) = false.
Proof.
  induction 1 as [|p ps Hp Hps IH]; [done|].
  destruct ps as [|q ps]; [done|].
  change (Js.join "" (p :: q :: ps)) with (p +:+ "" +:+ Js.join "" (q :: ps)).
  rewrite !occurs_app, Hp, IH. done.
Qed.

(** X1.  The name [nameConvert] makes never contains an underscore; a
    string without underscores is only put in lower case. *)
Theorem X1_nameConvert_no_underscore s :
  occurs "_" (nameConvert s) = false
  ∧ (occurs "_" s = false → nameConvert s = Js.toLowerCase s).
Proof.
  split.
  - unfold nameConvert. pose proof (split_no_sep "_" s) as Hall.
    destruct (Js.split "_" s) as [|p ps]; [done|].
    inv Hall. rewrite occurs_app, occurs_toLowerCase, H1. simpl.
    apply occurs_join_empty. apply Forall_map.
    eapply Forall_impl; [exact H2|]. intros q Hq. simpl.
    by rewrite occurs_capitalize.
  - intros Hs. unfold nameConvert. rewrite (split_plain "_" s Hs). simpl.
    apply app_empty_r.
Qed.

(** X2.  The convention method of a phase: for a phase word without
    underscores and in lower case, the converted name of
    [<phase>_<event>] is the phase word followed by the parts of the event
    name, each with its first letter in upper case.  So [before_my_event]
    names [beforeMyEvent], whatever the case of the first letter of the
    event. *)
Theorem X2_convention_name (phase_word e : string) :
  occurs "_" phase_word = false →
  Js.toLowerCase phase_word = phase_word →
  nameConvert (phase_word +:+ "_" +:+ e) = convention_name phase_word e.
Proof.
  intros Hp Hl. unfold nameConvert, convention_name.
  change (phase_word +:+ "_" +:+ e) with (phase_word +:+ String "_" e).
  rewrite split_app_sep by done. by rewrite Hl.
Qed.

End Names.

Lemma X2_convention_name_witness :
  nameConvert ("before_" +:+ "my_event") = "beforeMyEvent"
  ∧ nameConvert ("after_" +:+ "Condense") = "afterCondense".
Proof.
  split.
  - change ("before_" +:+ "my_event") with ("before" +:+ "_" +:+ "my_event").
    rewrite (X2_convention_name "before" "my_event"); reflexivity.
  - change ("after_" +:+ "Condense") with ("after" +:+ "_" +:+ "Condense").
    rewrite (X2_convention_name "after" "Condense"); reflexivity.
Defined.

(** ** An instance without a current state *)

Section Unseeded.

Context {U : Type}.
Variable run : Callable → list string → Obj U → bool * Obj U.
Variable STATE_show : bool.
Hypothesis run_keeps : keeps_engine run.
Implicit Types this : Obj U.

(** X5.  An instance that was never seeded does not move: with callables
    that leave the engine alone, [fire] leaves a null current state null,
    whatever the event, and makes no call in the on or after phase. *)
Theorem X5_unseeded_never_moves (e : string) this :
  _state this = None →
  _state (fire run STATE_show e this).1.2 = None
  ∧ Forall (λ i, phase i = Before) (fire run STATE_show e this).2.
Proof.
  intros Hnull.
  destruct (uniqueEvents this) as [known|f] eqn:Hk;
    [|by rewrite (fire_no_events run STATE_show e this f Hk)].
  destruct (decide (e ∈ known)) as [He|He];
    [|by rewrite (fire_unregistered run STATE_show e this known Hk He)].
  destruct (transitions this) as [registered|f] eqn:Ht;
    [|by rewrite (fire_no_transitions run STATE_show e this known f Hk He Ht)].
  rewrite (fire_registered run STATE_show e this known registered Hk He Ht).
  assert (find_transition e this = None) as ->.
  { unfold find_transition. rewrite Hnull. apply found_in_unseeded. }
  pose proof (fire_guards_stays run run_keeps e None this I)
    as (_ & _ & _ & _ & _ & _ & _ & Hs).
  pose proof (fire_guards_phase run e None this) as Hp.
  unfold bind.
  destruct (fire_guards run e None this) as [[[c|] o] calls]; simpl in *.
  - rewrite app_nil_r. split; congruence.
  - split; congruence.
Qed.

End Unseeded.

Lemma X5_unseeded_never_moves_witness :
  _state (fire Demo.run false "condense" (Demo.matter 100)).1.2 = None
  ∧ Forall (λ i, phase i = Before)
      (fire Demo.run false "condense" (Demo.matter 100)).2.
Proof.
  apply (X5_unseeded_never_moves Demo.run false demo_run_keeps_engine).
  vm_compute. reflexivity.
Defined.

(** ** More of the log *)

Module StateSafeMore.
Import StateSafe StateSafeFacts.



(** A line without colour: the header, a newline, the indented body. *)
Lemma formatted_plain (l : Level) (timeMsg msg tag : string)
    (this : Instance) :
  useColor this = false →
  formatted l timeMsg msg tag this
  = plain_header timeMsg tag this +:+ LF
    +:+ Js.join LF (map (λ line, "  " +:+ line) (Js.split LFc msg)).
Proof.
  intros Hc. unfold formatted. destruct (level_colors l) as [[c1 c2] c3].
  unfold formatMessage, now, formatHeader, formatTag, coloredMsg,
    plain_header. simpl. rewrite Hc. simpl.
  by rewrite !app_assoc_string.
Qed.

(** X16.  Without colour the three levels write the same line: on an
    instance with [useColor] false, as after [logTo], [infoMsg],
    [safeMsg] and [criticalMsg] with the same time, message and tag have
    the same effect. *)
Theorem X16_levels_alike_without_colour (l l' : Level)
    (timeMsg msg tag : string) (this : Instance) :
  useColor this = false →
  formatted l timeMsg msg tag this = formatted l' timeMsg msg tag this
  ∧ emit l timeMsg msg tag this = emit l' timeMsg msg tag this.
Proof.
  intros Hc. split; [by rewrite !formatted_plain|].
  by rewrite !emit_log, !formatted_plain.
Qed.

Lemma body_lines (color : string) (this : Instance) :
  occurs LFc color = false →
  Js.split LFc (coloredMsg color this)
  = map (body_line color this) (Js.split LFc (message this)).
Proof.
  intros Hcol. unfold coloredMsg.
  change LF with (String LFc "").
  change (λ line, if useColor this then "  " +:+ color +:+ line +:+ END
                  else "  " +:+ line) with (body_line color this).
  apply split_join.
  - pose proof (split_nonempty LFc (message this)) as Hne.
    by destruct (Js.split LFc (message this)).
  - apply Forall_map. eapply Forall_impl; [apply split_no_sep|].
    intros line Hline. simpl. unfold body_line.
    destruct (useColor this); rewrite !occurs_app, ?Hline, ?Hcol; reflexivity.
Qed.

(** X17.  The body of a message keeps its lines: [coloredMsg] turns each
    line of [this.message] into one line, indented by two spaces and,
    with colour, wrapped in the colour code and the reset code; it adds
    no line and drops none.  The colour code must hold no newline. *)
Theorem X17_body_keeps_lines (color : string) (this : Instance) :
  occurs LFc color = false →
  Js.split LFc (coloredMsg color this)
  = map (body_line color this) (Js.split LFc (message this)).
Proof. apply body_lines. Qed.




Lemma nonempty_Forall (l : list string) : Forall (λ line, line ≠ "") (nonempty l).
Proof. unfold nonempty. apply Forall_forall. by intros x [? _]%list_elem_of_filter. Qed.






(** X20.  [logTo] while a write is awaited.  The line being written
    goes to the file it was started on; once it has settled, the next
    line of the queue is written to the new file, the lines behind it
    waiting in their order; from then on lines are formatted without
    colour.  When the awaited write is rejected, the report on
    [console.error] names the new file, not the one the write was for. *)
Theorem X20_logTo_while_writing (path path' line : string)
    (rest : list string) (r : option string) (this : Instance) :
  Forall (λ line, line ≠ "") rest →
  outstanding path (line :: rest) this →
  let next := settle r (logTo path' this) in
  files next
  = match r with
    | None => appendFile path (line +:+ LF) (files this)
    | Some _ => files this
    end
  ∧ console_error next
    = console_error this
      ++ match r with
         | None => []
         | Some err =>
             ["Failed to write log to file " +:+ path' +:+ ": " +:+ err]
         end
  ∧ outstanding path' rest next
  ∧ useColor next = false.
Proof.
  intros Hne (Haw & Hq & Hw) next. subst next. unfold settle, logTo.
  cbn [awaited set_logFileLocation set_useColor]. rewrite Haw.
  destruct r as [err|]; simpl; rewrite Hq.
  - match goal with |- context [drain rest ?o] =>
      destruct (drain_outstanding rest o Hne) as (Ho & Hs & Hf & He);
        [done|done|] end.
    simpl in Ho, Hs, Hf, He. repeat split; try done. apply Hs.
  - match goal with |- context [drain rest ?o] =>
      destruct (drain_outstanding rest o Hne) as (Ho & Hs & Hf & He);
        [done|done|] end.
    simpl in Ho, Hs, Hf, He. rewrite He, app_nil_r.
    repeat split; try done. apply Hs.
Qed.

End StateSafeMore.

(** ** The further statements on instances *)

Lemma X1_nameConvert_no_underscore_witness :
  nameConvert "Condense" = "condense"
  ∧ occurs "_" (nameConvert "after_my_event") = false.
Proof.
  destruct (X1_nameConvert_no_underscore "Condense") as [_ Hplain].
  destruct (X1_nameConvert_no_underscore "after_my_event") as [Hno _].
  split; [|exact Hno]. rewrite Hplain; reflexivity.
Defined.


Lemma X16_levels_alike_without_colour_witness :
  StateSafe.infoMsg "12:00" "disk full" "DISK" StateSafe.to_file
  = StateSafe.criticalMsg "12:00" "disk full" "DISK" StateSafe.to_file.
Proof.
  apply (StateSafeMore.X16_levels_alike_without_colour StateSafe.Info
           StateSafe.Critical "12:00" "disk full" "DISK" StateSafe.to_file).
  reflexivity.
Defined.

Lemma X17_body_keeps_lines_witness :
  let this :=
    StateSafe.set_message ("first" +:+ StateSafe.LF +:+ "second")
      StateSafe.to_console in
  Js.split StateSafe.LFc (StateSafe.coloredMsg StateSafe.LIGHT_BLUE this)
  = [ "  " +:+ StateSafe.LIGHT_BLUE +:+ "first" +:+ StateSafe.END;
      "  " +:+ StateSafe.LIGHT_BLUE +:+ "second" +:+ StateSafe.END ].
Proof.
  intros this.
  rewrite (StateSafeMore.X17_body_keeps_lines StateSafe.LIGHT_BLUE this);
    reflexivity.
Defined.




Lemma X20_logTo_while_writing_witness :
  let busy :=
    StateSafe.raw_run StateSafe.to_file
      [StateSafe.RawLog "a"; StateSafe.RawLog "b"] in
  let next := StateSafe.settle (Some "EIO") (StateSafe.logTo "new.log" busy) in
  StateSafe.console_error next = ["Failed to write log to file new.log: EIO"]
  ∧ StateSafe.awaited next = Some ("new.log", "b" +:+ StateSafe.LF).
Proof.
  intros busy next.
  destruct (StateSafeMore.X20_logTo_while_writing "app.log" "new.log" "a"
              ["b"] (Some "EIO") busy) as (_ & Herr & Hout & _).
  - repeat constructor; discriminate.
  - vm_compute. repeat split; reflexivity.
  - split; [exact Herr|]. exact (proj1 Hout).
Defined.
